(** * Playlist watch-time aggregation: the route handler of
      [src/app/api/playlist-info/route.ts]

    The development embeds the helper functions of the route
    ([extractPlaylistId], [formatDuration], [parseISO8601Duration]) and its
    [POST] handler, and proves the properties the specification states
    about them.

    Conventions of the embedding.
    - A JavaScript [number] that the code only ever uses as an integer is a
      [Z]; the fractional numbers ([averageSeconds], the quotient by a
      playback speed) are [Q].  The arithmetic of the model is exact, that
      of the code is the arithmetic of IEEE doubles: the two agree on the
      integers below 2^53, where every sum, product and remainder of the
      route is exact and [String(n)] prints all the digits of [n].  The
      theorems that state a value or a rendering carry that bound.
    - A JavaScript string is a [string]; the patterns of the route only
      inspect ASCII characters.
    - [undefined] and [null] are [None] where the code treats them alike;
      the reason and the message of an upstream error, which the code
      prints, keep them apart ([JsText]).  A thrown value is [Throw e].
    - What the route imports from the platform or from packages (the [URL]
      class, [duration-fns], the YouTube client) is a parameter. *)

From Stdlib Require Import ZArith QArith Qround Lia Lqa Bool List.
From Stdlib Require Import Ascii String DecimalString.
From Stdlib Require DecimalPos.
Import ListNotations.

Local Open Scope Z_scope.
Local Open Scope string_scope.

(** ** Thrown values and completions *)

(** A field that holds a string, [null], or is absent. *)
Inductive JsText :=
| Undefined
| Null
| Text (s : string).

(** The string a field holds, when it holds one. *)
Definition text_of (t : JsText) : option string :=
  match t with
  | Text s => Some s
  | _ => None
  end.

(** One entry of [error.response.data.error.errors]. *)
Record ApiErrorItem := mkApiErrorItem {
  reason : JsText;
  message : JsText
}.

(** [error.response.data.error]; an absent [errors] array is the empty
    list ([undefined > 0] is false). *)
Record ApiError := mkApiError {
  api_message : option string;
  api_errors : list ApiErrorItem
}.

(** [error.response]: [resp_status] is [Some n] when
    [typeof error.response.status === 'number']. *)
Record ErrorResponse := mkErrorResponse {
  resp_status : option Z;
  resp_data_error : option ApiError
}.

(** A thrown value, as far as the handlers of the route look into it. *)
Record Exn := mkExn {
  exn_response : option ErrorResponse
}.

Inductive completion (A : Type) : Type :=
| Normal (a : A)
| Throw (e : Exn).
Arguments Normal {A} a.
Arguments Throw {A} e.

Definition bind {A B : Type} (c : completion A) (k : A -> completion B)
  : completion B :=
  match c with
  | Normal a => k a
  | Throw e => Throw e
  end.

Notation "x <- c ;; k" := (bind c (fun x => k))
  (at level 61, c at next level, right associativity).

(** [try { body } catch (e) { handler }] *)
Definition try_catch {A : Type} (body : completion A)
  (handler : Exn -> completion A) : completion A :=
  match body with
  | Normal a => Normal a
  | Throw e => handler e
  end.

(** ** Strings *)

(** Truthiness of a string: non-empty. *)
Definition truthy (s : string) : bool :=
  match s with
  | EmptyString => false
  | String _ _ => true
  end.

(** Truthiness of [string | null | undefined]. *)
Definition truthy_opt (o : option string) : bool :=
  match o with
  | Some s => truthy s
  | None => false
  end.

(** [a || b] on an optional string with a string default. *)
Definition or_default (o : option string) (d : string) : string :=
  match o with
  | Some s => if truthy s then s else d
  | None => d
  end.

Definition is_digit (c : ascii) : bool :=
  let n := nat_of_ascii c in (48 <=? n)%nat && (n <=? 57)%nat.

Definition digit_value (c : ascii) : Z := Z.of_nat (nat_of_ascii c) - 48.

Fixpoint string_forallb (p : ascii -> bool) (s : string) : bool :=
  match s with
  | EmptyString => true
  | String c s' => p c && string_forallb p s'
  end.

(** The longest run of decimal digits at the head of [s], and the rest. *)
Fixpoint span_digits (s : string) : string * string :=
  match s with
  | EmptyString => (EmptyString, EmptyString)
  | String c s' =>
      if is_digit c then
        let (d, r) := span_digits s' in (String c d, r)
      else (EmptyString, s)
  end.

Fixpoint digits_value_acc (s : string) (acc : Z) : Z :=
  match s with
  | EmptyString => acc
  | String c s' => digits_value_acc s' (acc * 10 + digit_value c)
  end.

(** [parseInt(s, 10)] for a string that starts with a decimal digit: the
    value of its leading run of digits.  The route calls it on a [(\d+)]
    capture or on the literal ['0'] only (see [String_match_groups_digits]),
    so [NaN], the result for a string with no leading digit, is not
    represented.  The value is exact; the code returns the nearest double,
    which is the same number when the value is below 2^53. *)
Definition parseInt10 (s : string) : Z :=
  digits_value_acc (fst (span_digits s)) 0.

(** [String(n)] for an integer [n]: all the digits of [n], as the code
    prints an integer below 2^53 (a larger double is printed with at most
    17 significant digits, and in exponent notation from 10^21). *)
Definition String_of_Z (n : Z) : string :=
  NilZero.string_of_int (Z.to_int n).

Fixpoint repeat_char (c : ascii) (n : nat) : string :=
  match n with
  | O => EmptyString
  | S n' => String c (repeat_char c n')
  end.

(** [s.padStart(targetLength, c)] with a one-character pad string. *)
Definition padStart (s : string) (targetLength : nat) (c : ascii) : string :=
  repeat_char c (targetLength - String.length s) ++ s.

(** ** The duration pattern

    [/PT(?:(\d+)H)?(?:(\d+)M)?(?:(\d+)S)?/] is not anchored: it matches at
    the first occurrence of ["PT"], and there always, because everything
    after ["PT"] is optional. *)

(** One optional group [(?:(\d+)X)?] at the head of [s]: the capture and
    the rest of the input.  [\d+] is greedy; giving digits back cannot help,
    since the character after a shorter run is a digit and not the marker,
    so the group either takes the whole run followed by the marker or
    matches empty. *)
Definition optional_group (marker : ascii) (s : string)
  : option string * string :=
  let (d, r) := span_digits s in
  match d, r with
  | String _ _, String c r' =>
      if Ascii.eqb c marker then (Some d, r') else (None, s)
  | _, _ => (None, s)
  end.

(** The three captures of the pattern, matched right after ["PT"]. *)
Definition match_groups (s : string)
  : option string * option string * option string :=
  let (h, s1) := optional_group "H" s in
  let (m, s2) := optional_group "M" s1 in
  let (sec, _) := optional_group "S" s2 in
  (h, m, sec).

(** [durationString.match(pattern)]: [None] is [null], otherwise
    [matches[1]], [matches[2]] and [matches[3]]. *)
Fixpoint String_match (s : string)
  : option (option string * option string * option string) :=
  match s with
  | EmptyString => None
  | String c s' =>
      match c, s' with
      | "P"%char, String "T"%char rest => Some (match_groups rest)
      | _, _ => String_match s'
      end
  end.

(** ** [formatDuration]

    The components are computed exactly.  The code computes them on
    doubles, with the same result for a number of seconds below 2^53. *)

(** Truncation towards zero. *)
Definition Qtrunc (x : Q) : Z := Z.quot (Qnum x) (Zpos (Qden x)).

(** The [%] operator of JavaScript on numbers: the remainder has the sign
    of the dividend. *)
Definition js_rem (a b : Q) : Q := (a - b * inject_Z (Qtrunc (a / b)))%Q.

Definition formatDuration (totalSeconds : Q) : string :=
  let hours := Qfloor (totalSeconds / inject_Z 3600) in
  let minutes := Qfloor (js_rem totalSeconds (inject_Z 3600) / inject_Z 60) in
  let seconds := Qfloor (js_rem totalSeconds (inject_Z 60)) in
  let hoursStr := if (0 <? hours)%Z then String_of_Z hours ++ ":" else "" in
  let minutesStr :=
    padStart (String_of_Z minutes) (if (0 <? hours)%Z then 2%nat else 1%nat) "0" in
  let secondsStr := padStart (String_of_Z seconds) 2%nat "0" in
  hoursStr ++ minutesStr ++ ":" ++ secondsStr.

(** ** [parseISO8601Duration] *)

(** The fields of a [duration-fns] [Duration] that the fallback reads. *)
Record Duration := mkDuration {
  hours : option Z;
  minutes : option Z;
  seconds : option Z
}.

(** [x ?? 0] *)
Definition nullish0 (o : option Z) : Z :=
  match o with
  | Some z => z
  | None => 0
  end.

(** ** Identifier pattern *)

Definition is_id_char (c : ascii) : bool :=
  let n := nat_of_ascii c in
  ((97 <=? n)%nat && (n <=? 122)%nat)
  || ((65 <=? n)%nat && (n <=? 90)%nat)
  || ((48 <=? n)%nat && (n <=? 57)%nat)
  || Ascii.eqb c "_" || Ascii.eqb c "-".

(** [/^[a-zA-Z0-9_-]+$/.test(s)] *)
Definition id_pattern_test (s : string) : bool :=
  truthy s && string_forallb is_id_char s.

(** ** The collaborator: the YouTube client *)

(** [PlaylistDetails], also the shape of a playlist's [snippet] as far as
    the route reads it. *)
Record PlaylistDetails := mkPlaylistDetails {
  title : option string;
  description : option string;
  channelTitle : option string;
  publishedAt : option string
}.

(** [let playlistDetails: PlaylistDetails = {}] *)
Definition noDetails : PlaylistDetails := mkPlaylistDetails None None None None.

Record Playlist := mkPlaylist {
  snippet : option PlaylistDetails
}.

Record PlaylistListResponse := mkPlaylistListResponse {
  playlists : option (list Playlist)
}.

(** [item.contentDetails?.videoId] of a playlist item. *)
Record PlaylistItem := mkPlaylistItem {
  videoId : option string
}.

Record PlaylistItemListResponse := mkPlaylistItemListResponse {
  playlistItems : option (list PlaylistItem);
  nextPageToken : option string
}.

(** [item.contentDetails?.duration] of a video. *)
Record Video := mkVideo {
  duration : option string
}.

Record VideoListResponse := mkVideoListResponse {
  videos : option (list Video)
}.

(** The three calls of the route; a rejected promise is [Throw]. *)
Record YoutubeClient := mkYoutubeClient {
  playlists_list : string -> completion PlaylistListResponse;
  playlistItems_list :
    string -> option string -> completion PlaylistItemListResponse;
  videos_list : list string -> completion VideoListResponse
}.

(** The calls made to the collaborator, in the order they are issued. *)
Inductive Call :=
| CallPlaylists (id : string)
| CallPlaylistItems (playlistId : string) (pageToken : option string)
| CallVideos (ids : list string).

Definition is_CallVideos (c : Call) : bool :=
  match c with
  | CallVideos _ => true
  | _ => false
  end.

(** ** Requests and responses *)

(** The [playlistUrl] field of the request body. *)
Inductive JsValue :=
| JsUndefined
| JsString (s : string)
| JsOther.

Inductive Body :=
| ErrorBody (error : string)
| SummaryBody (details : PlaylistDetails) (videoCount : Z)
    (totalWatchTime averageDuration : string) (totalSeconds : Z).

(** [NextResponse.json(body, { status })]; the status defaults to 200. *)
Record Response := mkResponse {
  body : Body;
  status : Z
}.

Definition json (b : Body) : Response := mkResponse b 200.

(** ** Array helpers *)

(** [.filter((id) => !!id)] on optional strings. *)
Fixpoint filter_truthy (l : list (option string)) : list string :=
  match l with
  | [] => []
  | Some s :: l' => if truthy s then s :: filter_truthy l' else filter_truthy l'
  | None :: l' => filter_truthy l'
  end.

(** [a.slice(i, j)] for [i <= j]. *)
Definition slice {A : Type} (i j : nat) (a : list A) : list A :=
  firstn (j - i) (skipn i a).

(** The batches of [for (let i = 0; i < videoIds.length; i += 50)],
    from index [i] on; [fuel] bounds the number of iterations. *)
Fixpoint videoIdBatches_from (fuel : nat) (videoIds : list string) (i : nat)
  : list (list string) :=
  match fuel with
  | O => []
  | S fuel' =>
      if (i <? List.length videoIds)%nat then
        slice i (i + 50) videoIds :: videoIdBatches_from fuel' videoIds (i + 50)
      else []
  end.

(** One iteration per identifier is more than the loop ever needs. *)
Definition videoIdBatches (videoIds : list string) : list (list string) :=
  videoIdBatches_from (List.length videoIds) videoIds 0.

(** [await Promise.all(promises)].  The calls have all been issued when it
    is awaited.  It fulfils with all the values when no promise rejects.
    When several reject, JavaScript rejects with the first rejection in
    time; the model reports the first in list order, so what is stated of a
    rejection is stated of some rejected promise, not of which one. *)
Fixpoint Promise_all {A : Type} (l : list (completion A))
  : completion (list A) :=
  match l with
  | [] => Normal []
  | c :: l' =>
      a <- c ;;
      r <- Promise_all l' ;;
      Normal (a :: r)
  end.

(** [l.forEach(x => { s = f(s, x) })] with a body that may throw. *)
Fixpoint forEach {A S : Type} (f : S -> A -> completion S) (l : list A) (s : S)
  : completion S :=
  match l with
  | [] => Normal s
  | x :: l' => s' <- f s x ;; forEach f l' s'
  end.

(** [x?.forEach(...)]: nothing happens on [undefined]. *)
Definition items_or_nil {A : Type} (o : option (list A)) : list A :=
  match o with
  | Some l => l
  | None => []
  end.

(** [`${x}`] for [string | null | undefined]. *)
Definition template (t : JsText) : string :=
  match t with
  | Text s => s
  | Null => "null"
  | Undefined => "undefined"
  end.

(** ** The error handler of [POST] (the outer [catch]) *)

Definition hasReason (r : option string) (name : string) : bool :=
  match r with
  | Some s => String.eqb s name
  | None => false
  end.

Definition handleError (error : Exn) : Response :=
  match exn_response error with
  | Some response =>
      match resp_data_error response with
      | Some ytError =>
          let message0 :=
            "YouTube API Error: "
            ++ or_default (api_message ytError) "Unknown error" in
          let fallthrough (message : string) :=
            let status :=
              match resp_status response with
              | Some n => n
              | None => 500
              end in
            mkResponse (ErrorBody message) status in
          match api_errors ytError with
          | first :: _ =>
              let reason := reason first in
              let message :=
                "YouTube API Error (" ++ template reason ++ "): "
                ++ template (message first) in
              if hasReason (text_of reason) "playlistNotFound" then
                mkResponse
                  (ErrorBody "Playlist not found. Check the URL or playlist privacy settings.")
                  404
              else if hasReason (text_of reason) "forbidden" then
                mkResponse
                  (ErrorBody "Access forbidden. The playlist might be private or deleted.")
                  403
              else if hasReason (text_of reason) "keyInvalid" then
                mkResponse
                  (ErrorBody "Invalid API Key. Please check server configuration.")
                  400
              else if hasReason (text_of reason) "quotaExceeded"
                      || hasReason (text_of reason) "rateLimitExceeded"
                      || hasReason (text_of reason) "userRateLimitExceeded" then
                mkResponse
                  (ErrorBody "API Quota Exceeded. Please try again later.")
                  429
              else fallthrough message
          | [] => fallthrough message0
          end
      | None =>
          mkResponse
            (ErrorBody "Failed to fetch playlist information due to an unexpected server error.")
            500
      end
  | None =>
      mkResponse
        (ErrorBody "Failed to fetch playlist information due to an unexpected server error.")
        500
  end.

(** [detailsError.response?.data?.error?.errors?.[0]?.reason] *)
Definition firstReason (error : Exn) : option string :=
  match exn_response error with
  | Some response =>
      match resp_data_error response with
      | Some ytError =>
          match api_errors ytError with
          | first :: _ => text_of (reason first)
          | [] => None
          end
      | None => None
      end
  | None => None
  end.

(** ** The helpers of the page ([src/app/page.tsx])

    The page shows the [totalSeconds] of the response through two helpers.
    Their argument is [number | undefined]: [None] stands for [undefined],
    [null] and [NaN], the three values the guard of both helpers rejects. *)

(** [Math.round(x)]: the nearest integer, a half going up. *)
Definition Math_round (x : Q) : Z := Qfloor (x + (1 # 2)).

(** [const playbackSpeeds = [1.25, 1.5, 1.75, 2.0]] *)
Definition playbackSpeeds : list Q := [5 # 4; 3 # 2; 7 # 4; 2 # 1].

(** [calculateAdjustedTime(seconds, speed)].  The quotient is exact here
    and the nearest double in the code; for the speeds of the page and
    whole seconds below 2^32 the two round to the same integer, since the
    quotient is then far from a half, or exactly a half (speed 2).
    Dividing by a [speed] of zero
    gives [NaN] for zero seconds, which the second guard rejects, and an
    infinity otherwise, whose hour component prints as [Infinity] or is not
    positive and whose other components are [NaN].  [adjustedSeconds] is an
    integer, so the components are computed in [Z]: [Z.rem] is the [%] of
    JavaScript on integers and [/] the floor of the quotient. *)
Definition calculateAdjustedTime (seconds : option Q) (speed : Q) : string :=
  match seconds with
  | None => "N/A"
  | Some seconds =>
      if Qeq_bool speed 0 then
        if Qeq_bool seconds 0 then "N/A"
        else if Qle_bool seconds 0 then "NaN:NaN"
        else "Infinity:NaN:NaN"
      else
        let adjustedSeconds := Math_round (seconds / speed) in
        let hours := (adjustedSeconds / 3600)%Z in
        let minutes := (Z.rem adjustedSeconds 3600 / 60)%Z in
        let remainingSeconds := Z.rem adjustedSeconds 60 in
        if (0 <? hours)%Z then
          String_of_Z hours ++ ":"
          ++ padStart (String_of_Z minutes) 2 "0" ++ ":"
          ++ padStart (String_of_Z remainingSeconds) 2 "0"
        else
          String_of_Z minutes ++ ":"
          ++ padStart (String_of_Z remainingSeconds) 2 "0"
  end.

(** [getTimeEstimate(seconds)], computed exactly; the code computes on
    doubles and prints with [String(n)], with the same result for whole
    seconds of magnitude below 2^53. *)
Definition getTimeEstimate (seconds : option Q) : string :=
  match seconds with
  | None => "N/A"
  | Some seconds =>
      let hours := Qfloor (seconds / inject_Z 3600) in
      let days := (hours / 24)%Z in
      if (hours <? 1)%Z then "Less than an hour"
      else if (hours <? 5)%Z then "A few hours"
      else if (hours <? 24)%Z then "Less than a day"
      else if (hours <? 48)%Z then "About a day"
      else if (hours <? 168)%Z then
        "About " ++ String_of_Z days ++ " day"
        ++ (if (1 <? days)%Z then "s" else "")
      else if (hours <? 720)%Z then
        let weeks := Math_round (inject_Z days / inject_Z 7) in
        "About " ++ String_of_Z weeks ++ " week"
        ++ (if (1 <? weeks)%Z then "s" else "")
      else
        let months := Math_round (inject_Z days / inject_Z 30) in
        "About " ++ String_of_Z months ++ " month"
        ++ (if (1 <? months)%Z then "s" else "")
  end.

(** ** Instances of the parameters

    The route is stated over the platform's [URL] class, the [duration-fns]
    package and the YouTube client.  The instances below are used to run
    the route on concrete requests. *)

(** A [duration-fns] that rejects everything. *)
Definition rejecting_parse : string -> completion Duration :=
  fun _ => Throw (mkExn None).

(** [s] cut at the first occurrence of [c]. *)
Fixpoint split_first (c : ascii) (s : string) : option (string * string) :=
  match s with
  | EmptyString => None
  | String a s' =>
      if Ascii.eqb a c then Some (EmptyString, s')
      else
        match split_first c s' with
        | Some (l, r) => Some (String a l, r)
        | None => None
        end
  end.

(** [s] cut at every occurrence of [c]. *)
Fixpoint split_all (c : ascii) (s : string) : list string :=
  match s with
  | EmptyString => [EmptyString]
  | String a s' =>
      if Ascii.eqb a c then EmptyString :: split_all c s'
      else
        match split_all c s' with
        | x :: l => String a x :: l
        | [] => [String a EmptyString]
        end
  end.

Definition is_alpha (c : ascii) : bool :=
  let n := nat_of_ascii c in
  ((97 <=? n)%nat && (n <=? 122)%nat) || ((65 <=? n)%nat && (n <=? 90)%nat).

Definition is_scheme_char (c : ascii) : bool :=
  is_alpha c || is_digit c
  || Ascii.eqb c "+" || Ascii.eqb c "-" || Ascii.eqb c ".".

Definition is_scheme (s : string) : bool :=
  match s with
  | EmptyString => false
  | String c s' => is_alpha c && string_forallb is_scheme_char s'
  end.

(** The [URL] class on plain ASCII URLs without escapes: a string is a URL
    when it starts with a scheme and a colon; what is kept of it is its
    query, the text between the first [?] and the first [#]. *)
Definition plain_URL_new (url : string) : completion string :=
  match split_first ":" url with
  | Some (scheme, rest) =>
      if is_scheme scheme then
        let beforeFragment :=
          match split_first "#" rest with
          | Some (l, _) => l
          | None => rest
          end in
        match split_first "?" beforeFragment with
        | Some (_, query) => Normal query
        | None => Normal EmptyString
        end
      else Throw (mkExn None)
  | None => Throw (mkExn None)
  end.

Fixpoint lookup_pair (name : string) (pairs : list string) : option string :=
  match pairs with
  | [] => None
  | p :: pairs' =>
      let (n, v) :=
        match split_first "=" p with
        | Some nv => nv
        | None => (p, EmptyString)
        end in
      if truthy p && String.eqb n name then Some v
      else lookup_pair name pairs'
  end.

(** [searchParams.get(name)]: the value of the first [name=value] pair. *)
Definition plain_searchParams_get (query : string) (name : string)
  : option string :=
  lookup_pair name (split_all "&" query).

Definition notFoundError : Exn :=
  mkExn (Some (mkErrorResponse (Some 404)
    (Some (mkApiError (Some "The playlist cannot be found.")
       [mkApiErrorItem (Text "playlistNotFound")
          (Text "The playlist cannot be found.")])))).

Definition backendError : Exn :=
  mkExn (Some (mkErrorResponse (Some 503)
    (Some (mkApiError (Some "Backend Error")
       [mkApiErrorItem (Text "backendError") (Text "Backend Error")])))).

(** An upstream refusal of the request for want of a login: its status and
    reason are none of those the handler names. *)
Definition authorizationRequiredError : Exn :=
  mkExn (Some (mkErrorResponse (Some 401)
    (Some (mkApiError (Some "Login Required")
       [mkApiErrorItem (Text "authorizationRequired")
          (Text "Login Required")])))).

(** An upstream failure whose first entry has a [null] reason and no
    message. *)
Definition anonymousError : Exn :=
  mkExn (Some (mkErrorResponse (Some 502)
    (Some (mkApiError None [mkApiErrorItem Null Undefined])))).

Definition somePlaylist : PlaylistListResponse :=
  mkPlaylistListResponse
    (Some [mkPlaylist
             (Some (mkPlaylistDetails (Some "Mix") None (Some "Ch") None))]).

(** A playlist with no items. *)
Definition emptyClient : YoutubeClient :=
  mkYoutubeClient
    (fun _ => Normal somePlaylist)
    (fun _ _ => Normal (mkPlaylistItemListResponse (Some []) None))
    (fun _ => Normal (mkVideoListResponse (Some []))).

(** A playlist of three videos of 30 s, 90 s and one hour, listed on two
    pages; the second page also has an entry without identifier. *)
Definition threeVideosClient : YoutubeClient :=
  mkYoutubeClient
    (fun _ => Normal somePlaylist)
    (fun _ pageToken =>
       match pageToken with
       | None =>
           Normal (mkPlaylistItemListResponse
                     (Some [mkPlaylistItem (Some "a"); mkPlaylistItem (Some "b")])
                     (Some "p2"))
       | Some _ =>
           Normal (mkPlaylistItemListResponse
                     (Some [mkPlaylistItem None; mkPlaylistItem (Some "c")])
                     None)
       end)
    (fun _ =>
       Normal (mkVideoListResponse
                 (Some [mkVideo (Some "PT30S"); mkVideo (Some "PT1M30S");
                        mkVideo (Some "PT1H")]))).

(** The two pages of [threeVideosClient]. *)
Definition threeVideosPages : list PlaylistItemListResponse :=
  [mkPlaylistItemListResponse
     (Some [mkPlaylistItem (Some "a"); mkPlaylistItem (Some "b")])
     (Some "p2");
   mkPlaylistItemListResponse
     (Some [mkPlaylistItem None; mkPlaylistItem (Some "c")]) None].

(** The metadata lookup fails with [e]; the playlist itself is that of
    [threeVideosClient]. *)
Definition failingDetailsClient (e : Exn) : YoutubeClient :=
  mkYoutubeClient
    (fun _ => Throw e)
    (playlistItems_list threeVideosClient)
    (videos_list threeVideosClient).

(** The membership listing fails with [e]. *)
Definition failingItemsClient (e : Exn) : YoutubeClient :=
  mkYoutubeClient
    (fun _ => Normal somePlaylist)
    (fun _ _ => Throw e)
    (fun _ => Normal (mkVideoListResponse (Some []))).

(** Every duration lookup fails with [e]; the playlist itself is that of
    [threeVideosClient]. *)
Definition failingVideosClient (e : Exn) : YoutubeClient :=
  mkYoutubeClient
    (fun _ => Normal somePlaylist)
    (playlistItems_list threeVideosClient)
    (fun _ => Throw e).

Definition sampleRequest : completion JsValue :=
  Normal (JsString "https://x/playlist?list=PL123_abc").

(** What the derivation of step 3 of [POST] computes (its local
    constants). *)
Record Statistics := mkStatistics {
  stat_totalSeconds : Z;
  stat_averageSeconds : Q;
  stat_formattedTotalDuration : string;
  stat_formattedAverageDuration : string
}.

Section Route.

(** [parse] of the [duration-fns] package. *)
Variable duration_fns_parse : string -> completion Duration.

(** The [URL] class of the platform: [new URL(url)], which throws on a
    string that is not a URL, and [parsedUrl.searchParams.get(name)]. *)
Variable URL : Type.
Variable URL_new : string -> completion URL.
Variable searchParams_get : URL -> string -> option string.

(** [const youtube = google.youtube(...)] *)
Variable youtube : YoutubeClient.

(** *** [extractPlaylistId] *)

Definition extractPlaylistId (url : string) : completion (option string) :=
  try_catch
    (parsedUrl <- URL_new url ;;
     let playlistId := searchParams_get parsedUrl "list" in
     match playlistId with
     | Some id =>
         if truthy id && id_pattern_test id then Normal (Some id)
         else Normal None
     | None => Normal None
     end)
    (fun _ => Normal None).

(** *** [parseISO8601Duration] *)

Definition parseISO8601Duration (durationString : string) : completion Z :=
  if negb (truthy durationString) then Normal 0
  else
    try_catch
      (match String_match durationString with
       | None => Normal 0
       | Some (m1, m2, m3) =>
           let hours := parseInt10 (or_default m1 "0") in
           let minutes := parseInt10 (or_default m2 "0") in
           let seconds := parseInt10 (or_default m3 "0") in
           Normal (hours * 3600 + minutes * 60 + seconds)
       end)
      (fun _ =>
         try_catch
           (parsed <- duration_fns_parse durationString ;;
            Normal (nullish0 (hours parsed) * 3600
                    + nullish0 (minutes parsed) * 60
                    + nullish0 (seconds parsed)))
           (fun _ => Normal 0)).

(** *** Step 1 of [POST]: the membership pages *)

(** [playlistResponse.data.items?.map(item => item.contentDetails?.videoId)
      .filter(id => !!id) ?? []] *)
Definition currentVideoIds (playlistResponse : PlaylistItemListResponse)
  : list string :=
  match playlistItems playlistResponse with
  | Some items => filter_truthy (map videoId items)
  | None => []
  end.

(** The [do ... while (nextPageToken)] loop, entered with the identifiers
    collected so far and the token of the page to ask for.  [None] when
    [fuel] iterations were not enough. *)
Fixpoint fetchVideoIds (fuel : nat) (playlistId : string)
  (videoIds : list string) (pageToken : option string)
  : option (completion (list string) * list Call) :=
  match fuel with
  | O => None
  | S fuel' =>
      match playlistItems_list youtube playlistId pageToken with
      | Throw e => Some (Throw e, [CallPlaylistItems playlistId pageToken])
      | Normal playlistResponse =>
          let videoIds' := (videoIds ++ currentVideoIds playlistResponse)%list in
          if truthy_opt (nextPageToken playlistResponse) then
            match fetchVideoIds fuel' playlistId videoIds'
                    (nextPageToken playlistResponse) with
            | Some (r, calls) =>
                Some (r, CallPlaylistItems playlistId pageToken :: calls)
            | None => None
            end
          else Some (Normal videoIds', [CallPlaylistItems playlistId pageToken])
      end
  end.

(** *** Steps 2 and 3 of [POST]: durations and statistics *)

(** The body of the inner [forEach].  The sum is exact; the code adds
    doubles, with the same result while the total stays below 2^53. *)
Definition addDuration (totalSeconds : Z) (item : Video) : completion Z :=
  match duration item with
  | Some durationString =>
      if truthy durationString then
        d <- parseISO8601Duration durationString ;;
        Normal (totalSeconds + d)
      else Normal totalSeconds
  | None => Normal totalSeconds
  end.

(** The two nested [forEach] loops over the responses and their items. *)
Definition sumDurations (videoDetailsResponses : list VideoListResponse)
  : completion Z :=
  forEach
    (fun totalSeconds response =>
       forEach addDuration (items_or_nil (videos response)) totalSeconds)
    videoDetailsResponses 0.

Definition averageOf (totalSeconds videoCount : Z) : Q :=
  if (0 <? videoCount)%Z then (inject_Z totalSeconds / inject_Z videoCount)%Q
  else 0%Q.

Definition deriveStatistics (videoCount : Z)
  (videoDetailsResponses : list VideoListResponse) : completion Statistics :=
  totalSeconds <- sumDurations videoDetailsResponses ;;
  let formattedTotalDuration := formatDuration (inject_Z totalSeconds) in
  let averageSeconds := averageOf totalSeconds videoCount in
  let formattedAverageDuration := formatDuration averageSeconds in
  Normal (mkStatistics totalSeconds averageSeconds
            formattedTotalDuration formattedAverageDuration).

(** *** [POST] *)

(** The details read from the metadata response. *)
Definition detailsOf (r : PlaylistListResponse) : PlaylistDetails :=
  match playlists r with
  | Some (first :: _) =>
      match snippet first with
      | Some s =>
          mkPlaylistDetails (title s) (description s)
            (channelTitle s) (publishedAt s)
      | None => noDetails
      end
  | _ => noDetails
  end.

Definition prepend (c : Call)
  (r : option (completion Response * list Call))
  : option (completion Response * list Call) :=
  match r with
  | Some (x, calls) => Some (x, c :: calls)
  | None => None
  end.

(** From the membership fetch to the success response, with the details
    the metadata lookup left in [playlistDetails]. *)
Definition afterDetails (fuel : nat) (playlistId : string)
  (playlistDetails : PlaylistDetails)
  : option (completion Response * list Call) :=
  match fetchVideoIds fuel playlistId [] None with
  | None => None
  | Some (Throw e, calls) => Some (Throw e, calls)
  | Some (Normal videoIds, calls) =>
      let videoCount := Z.of_nat (List.length videoIds) in
      if (videoCount =? 0)%Z then
        Some (Normal (json (SummaryBody playlistDetails 0 "0:00" "0:00" 0)),
              calls)
      else
        let batches := videoIdBatches videoIds in
        let calls' := (calls ++ map CallVideos batches)%list in
        match Promise_all (map (videos_list youtube) batches) with
        | Throw e => Some (Throw e, calls')
        | Normal videoDetailsResponses =>
            match deriveStatistics videoCount videoDetailsResponses with
            | Throw e => Some (Throw e, calls')
            | Normal st =>
                Some (Normal (json (SummaryBody playlistDetails videoCount
                                      (stat_formattedTotalDuration st)
                                      (stat_formattedAverageDuration st)
                                      (stat_totalSeconds st))),
                      calls')
            end
        end
  end.

(** The metadata lookup with its own [try]/[catch], then the rest. *)
Definition withPlaylistId (fuel : nat) (playlistId : string)
  : option (completion Response * list Call) :=
  match playlists_list youtube playlistId with
  | Normal playlistInfoResponse =>
      prepend (CallPlaylists playlistId)
        (afterDetails fuel playlistId (detailsOf playlistInfoResponse))
  | Throw detailsError =>
      if hasReason (firstReason detailsError) "playlistNotFound" then
        Some (Normal
                (mkResponse
                   (ErrorBody "Playlist not found. Check the URL or playlist privacy settings.")
                   404),
              [CallPlaylists playlistId])
      else
        prepend (CallPlaylists playlistId)
          (afterDetails fuel playlistId noDetails)
  end.

(** The body of the outer [try]; [req_json] is what [await req.json()]
    gives for [playlistUrl]. *)
Definition POST_try (fuel : nat) (req_json : completion JsValue)
  : option (completion Response * list Call) :=
  match req_json with
  | Throw e => Some (Throw e, [])
  | Normal (JsString playlistUrl) =>
      if truthy playlistUrl then
        match extractPlaylistId playlistUrl with
        | Throw e => Some (Throw e, [])
        | Normal (Some playlistId) =>
            if truthy playlistId then withPlaylistId fuel playlistId
            else
              Some (Normal
                      (mkResponse
                         (ErrorBody "Invalid YouTube Playlist URL format.") 400),
                    [])
        | Normal None =>
            Some (Normal
                    (mkResponse
                       (ErrorBody "Invalid YouTube Playlist URL format.") 400),
                  [])
        end
      else
        Some (Normal (mkResponse (ErrorBody "Playlist URL is required.") 400),
              [])
  | Normal _ =>
      Some (Normal (mkResponse (ErrorBody "Playlist URL is required.") 400), [])
  end.

(** The handler: the response and the calls made to the collaborator;
    [None] when the pagination loop did not end within [fuel] pages.
    [apiKey] is [process.env.YOUTUBE_API_KEY]. *)
Definition POST (fuel : nat) (apiKey : option string)
  (req_json : completion JsValue) : option (Response * list Call) :=
  if negb (truthy_opt apiKey) then
    Some (mkResponse
            (ErrorBody "Server configuration error: API key missing.") 500,
          [])
  else
    match POST_try fuel req_json with
    | None => None
    | Some (Normal response, calls) => Some (response, calls)
    | Some (Throw error, calls) => Some (handleError error, calls)
    end.

(** ** Duration encodings *)

(** The decimal numeral [d] as the pattern sees it. *)
Definition numeral (d : Decimal.uint) : string := NilEmpty.string_of_uint d.

(** One component of a duration encoding: a numeral and its marker
    letter, or nothing. *)
Definition component (o : option Decimal.uint) (marker : ascii) : string :=
  match o with
  | Some d => numeral d ++ String marker EmptyString
  | None => EmptyString
  end.

(** The duration encoding with the given hour, minute and second
    numerals. *)
Definition encode (h m s : option Decimal.uint) : string :=
  "PT" ++ component h "H" ++ component m "M" ++ component s "S".

(** A component that is present has at least one digit. *)
Definition present_nonempty (o : option Decimal.uint) : Prop :=
  o <> Some Decimal.Nil.

(** The number a component stands for; an absent one counts as zero. *)
Definition component_value (o : option Decimal.uint) : Z :=
  match o with
  | Some d => Z.of_N (N.of_uint d)
  | None => 0
  end.

(** No digit at the head of [s]. *)
Definition starts_without_digit (s : string) : Prop :=
  match s with
  | EmptyString => True
  | String c _ => is_digit c = false
  end.

(** A capture of the pattern is a non-empty run of digits. *)
Definition is_capture (o : option string) : Prop :=
  match o with
  | Some d => truthy d = true /\ string_forallb is_digit d = true
  | None => True
  end.

(** ** Clock strings *)

(** The character of the decimal digit [d]. *)
Definition digit_char (d : Z) : ascii := ascii_of_nat (48 + Z.to_nat d).

(** [k] on exactly two decimal digits, zero-padded. *)
Definition two_digits (k : Z) : string :=
  String (digit_char (k / 10)) (String (digit_char (k mod 10)) EmptyString).

(** The clock string of a whole number of seconds: [H:MM:SS] when there
    is a positive hour component, [M:SS] otherwise, where H and M are plain
    decimal numerals. *)
Definition clock (n : Z) : string :=
  let h := n / 3600 in
  let m := (n mod 3600) / 60 in
  let s := n mod 60 in
  if (0 <? h)%Z then
    String_of_Z h ++ ":" ++ two_digits m ++ ":" ++ two_digits s
  else String_of_Z m ++ ":" ++ two_digits s.

(** The string [formatDuration] assembles from its three components. *)
Definition assemble (hours minutes seconds : Z) : string :=
  (if (0 <? hours)%Z then String_of_Z hours ++ ":" else "")
  ++ padStart (String_of_Z minutes) (if (0 <? hours)%Z then 2%nat else 1%nat) "0"
  ++ ":" ++ padStart (String_of_Z seconds) 2%nat "0".

(** ** Playlist identifiers *)

(** The characters of [[A-Za-z0-9_-]]. *)
Definition id_alphabet : string :=
  "ABCDEFGHIJKLMNOPQRSTUVWXYZabcdefghijklmnopqrstuvwxyz0123456789_-".

Definition chars (s : string) : list ascii := list_ascii_of_string s.

(** [s] matches [^[A-Za-z0-9_-]+$]: it is not empty and all its
    characters are of the alphabet. *)
Definition matches_id_pattern (s : string) : Prop :=
  s <> "" /\ forall c, In c (chars s) -> In c (chars id_alphabet).

(** [url] parses as a URL whose [list] parameter is [id], a string
    matching the identifier pattern. *)
Definition has_valid_list (url id : string) : Prop :=
  exists parsedUrl,
    URL_new url = Normal parsedUrl
    /\ searchParams_get parsedUrl "list" = Some id
    /\ matches_id_pattern id.

(** ** Items and pages *)

(** The [ItemDuration] of a returned video: the parse of its duration, zero
    when the video carries none. *)
Definition ItemDuration (item : Video) : Z :=
  match duration item with
  | Some durationString =>
      match parseISO8601Duration durationString with
      | Normal d => d
      | Throw _ => 0
      end
  | None => 0
  end.

(** All the videos the duration lookups returned, in order. *)
Definition allItems (videoDetailsResponses : list VideoListResponse)
  : list Video :=
  flat_map (fun response => items_or_nil (videos response))
    videoDetailsResponses.

Definition sumZ (l : list Z) : Z := fold_right Z.add 0 l.

(** The entries of a membership page. *)
Definition entries (page : PlaylistItemListResponse) : list PlaylistItem :=
  items_or_nil (playlistItems page).

(** The entry carries a video identifier, and not the empty one. *)
Definition bears_identifier (item : PlaylistItem) : bool :=
  truthy_opt (videoId item).

(** The pages the membership loop receives when it asks for [pageToken]
    first: it follows the continuation tokens and stops at a page without
    one, or at a failed request. *)
Fixpoint pagesFetched (fuel : nat) (playlistId : string)
  (pageToken : option string) : option (list PlaylistItemListResponse) :=
  match fuel with
  | O => None
  | S fuel' =>
      match playlistItems_list youtube playlistId pageToken with
      | Throw _ => Some []
      | Normal page =>
          if truthy_opt (nextPageToken page) then
            option_map (cons page)
              (pagesFetched fuel' playlistId (nextPageToken page))
          else Some [page]
      end
  end.

(** ** Outcomes of the handler *)

(** What [POST] answers once the body of its [try] has ended. *)
Definition respond (r : option (completion Response * list Call))
  : option (Response * list Call) :=
  match r with
  | None => None
  | Some (Normal response, calls) => Some (response, calls)
  | Some (Throw error, calls) => Some (handleError error, calls)
  end.

Definition notFoundResponse : Response :=
  mkResponse
    (ErrorBody "Playlist not found. Check the URL or playlist privacy settings.")
    404.

Definition forbiddenResponse : Response :=
  mkResponse
    (ErrorBody "Access forbidden. The playlist might be private or deleted.")
    403.

Definition invalidCredentialResponse : Response :=
  mkResponse
    (ErrorBody "Invalid API Key. Please check server configuration.") 400.

Definition rateLimitedResponse : Response :=
  mkResponse (ErrorBody "API Quota Exceeded. Please try again later.") 429.

Definition genericServerErrorResponse : Response :=
  mkResponse
    (ErrorBody "Failed to fetch playlist information due to an unexpected server error.")
    500.

(** The upstream error object of a thrown value,
    [error.response?.data?.error], with the response that carries it. *)
Definition upstreamError (error : Exn) : option (ErrorResponse * ApiError) :=
  match exn_response error with
  | Some response =>
      match resp_data_error response with
      | Some ytError => Some (response, ytError)
      | None => None
      end
  | None => None
  end.

(** The reasons the handler answers with a response of its own. *)
Definition named_reasons : list string :=
  ["playlistNotFound"; "forbidden"; "keyInvalid"; "quotaExceeded";
   "rateLimitExceeded"; "userRateLimitExceeded"].

Definition is_named_reason (r : option string) : Prop :=
  exists name, r = Some name /\ In name named_reasons.

(** ** Durations in context *)

(** A duration with a day designator, as ISO 8601 writes a time of a day
    or more: [P<d>DT<h>H<m>M<s>S]. *)
Definition encode_with_days (d : Decimal.uint)
  (h m s : option Decimal.uint) : string :=
  "P" ++ numeral d ++ "DT"
  ++ component h "H" ++ component m "M" ++ component s "S".

Definition not_P (c : ascii) : bool := negb (Ascii.eqb c "P").

(** ** Calls and pages of a run *)

(** A membership request for the playlist [playlistId]. *)
Definition is_items_call (playlistId : string) (c : Call) : Prop :=
  exists pageToken, c = CallPlaylistItems playlistId pageToken.

(** A duration lookup for between 1 and 50 identifiers. *)
Definition is_batch_call (c : Call) : Prop :=
  exists ids,
    c = CallVideos ids /\ (1 <= List.length ids <= 50)%nat.

(** [pages] is what the collaborator answers when it is asked for
    [pageToken] and then for the continuation token of each page in turn:
    every page but the last carries a token, the last one none. *)
Fixpoint token_chain (playlistId : string) (pageToken : option string)
  (pages : list PlaylistItemListResponse) : Prop :=
  match pages with
  | [] => False
  | page :: pages' =>
      playlistItems_list youtube playlistId pageToken = Normal page
      /\ match pages' with
         | [] => truthy_opt (nextPageToken page) = false
         | _ :: _ =>
             truthy_opt (nextPageToken page) = true
             /\ token_chain playlistId (nextPageToken page) pages'
         end
  end.

(** The tokens of the requests that fetch [pages], the first request being
    made with [pageToken]. *)
Definition request_tokens (pageToken : option string)
  (pages : list PlaylistItemListResponse) : list (option string) :=
  pageToken :: map nextPageToken (removelast pages).

(** ** Reading a clock string back *)

(** The seconds a clock string stands for: its fields, separated by
    colons, are minutes and seconds, or hours, minutes and seconds. *)
Definition clock_seconds (s : string) : option Z :=
  match split_all ":" s with
  | [m; sec] => Some (parseInt10 m * 60 + parseInt10 sec)
  | [h; m; sec] => Some (parseInt10 h * 3600 + parseInt10 m * 60 + parseInt10 sec)
  | _ => None
  end.

Definition not_colon (c : ascii) : bool := negb (Ascii.eqb c ":").

(** ** Strings the pattern matches *)

(** [s] has an occurrence of ["PT"]. *)
Definition contains_PT (s : string) : Prop :=
  exists pre post, s = pre ++ "PT" ++ post.

(** ** The answers of the duration lookups *)

(** What the collaborator answers to the lookup of one batch, when it
    answers; a failed lookup has no videos. *)
Definition batchItems (batch : list string) : list Video :=
  match videos_list youtube batch with
  | Normal response => items_or_nil (videos response)
  | Throw _ => []
  end.

(** Every lookup of the batches of [videoIds] is answered. *)
Definition lookups_answered (videoIds : list string) : Prop :=
  forall batch,
    In batch (videoIdBatches videoIds) ->
    exists response, videos_list youtube batch = Normal response.

(** The total of a run over [videoIds]: the durations of the videos
    returned for each batch, all batches taken in order. *)
Definition runTotal (videoIds : list string) : Z :=
  sumZ (map ItemDuration (flat_map batchItems (videoIdBatches videoIds))).

(** ** The taxonomy of error responses *)

Inductive Classification :=
| InvalidInput
| NotFound
| Forbidden
| InvalidCredential
| RateLimited
| GenericServerError.

(** The status the handler gives each classification. *)
Definition status_of (c : Classification) : Z :=
  match c with
  | InvalidInput => 400
  | NotFound => 404
  | Forbidden => 403
  | InvalidCredential => 400
  | RateLimited => 429
  | GenericServerError => 500
  end.

(** The text the handler builds from an upstream error: the reason and
    the message of its first entry, or its own message when it has no
    entry. *)
Definition upstreamMessage (ytError : ApiError) : string :=
  match api_errors ytError with
  | first :: _ =>
      "YouTube API Error (" ++ template (reason first) ++ "): "
      ++ template (message first)
  | [] =>
      "YouTube API Error: " ++ or_default (api_message ytError) "Unknown error"
  end.

(** The status of an upstream response, 500 when it has no number. *)
Definition upstreamStatus (response : ErrorResponse) : Z :=
  match resp_status response with
  | Some n => n
  | None => 500
  end.

(** ** Exact numbers *)

(** Below 2^53 the doubles of the code are the integers of the model. *)
Definition below_2_53 (n : Z) : Prop := (n < 2 ^ 53)%Z.

(** The components of an encoding and the seconds they add up to are all
    below 2^53. *)
Definition exact_components (h m s : option Decimal.uint) : Prop :=
  below_2_53 (component_value h)
  /\ below_2_53 (component_value m)
  /\ below_2_53 (component_value s)
  /\ below_2_53
       (component_value h * 3600 + component_value m * 60 + component_value s).

(** * Properties *)

(** ** The duration parser *)

Lemma numeral_digits (d : Decimal.uint) :
  string_forallb is_digit (numeral d) = true.
Proof.
  induction d; simpl; auto.
Qed.

Lemma numeral_truthy (d : Decimal.uint) :
  d <> Decimal.Nil -> truthy (numeral d) = true.
Proof.
  destruct d; simpl; congruence.
Qed.

Lemma span_digits_app (ds rest : string) :
  string_forallb is_digit ds = true ->
  starts_without_digit rest ->
  span_digits (ds ++ rest) = (ds, rest).
Proof.
  intros Hds Hrest. induction ds as [|c ds IH]; simpl in *.
  - destruct rest as [|c r]; simpl in *; [reflexivity|].
    now rewrite Hrest.
  - apply andb_true_iff in Hds as [Hc Hds].
    rewrite Hc, (IH Hds). reflexivity.
Qed.

Lemma span_digits_all (ds : string) :
  string_forallb is_digit ds = true -> span_digits ds = (ds, EmptyString).
Proof.
  intros H. induction ds as [|c ds IH]; simpl in *; [reflexivity|].
  apply andb_true_iff in H as [Hc Hds].
  now rewrite Hc, (IH Hds).
Qed.

Lemma digits_value_acc_pos (d : Decimal.uint) (p : positive) :
  digits_value_acc (numeral d) (Zpos p) = Zpos (Pos.of_uint_acc d p).
Proof.
  unfold numeral. revert p.
  induction d; intros p;
    cbn [NilEmpty.string_of_uint digits_value_acc Pos.of_uint_acc];
    try reflexivity;
    rewrite <- IHd; f_equal; vm_compute digit_value; lia.
Qed.

Lemma digits_value_numeral (d : Decimal.uint) :
  digits_value_acc (numeral d) 0 = Z.of_N (N.of_uint d).
Proof.
  unfold N.of_uint.
  induction d;
    cbn [numeral NilEmpty.string_of_uint digits_value_acc Pos.of_uint];
    try reflexivity; try exact IHd.
  all: cbn [Z.of_N]; rewrite <- digits_value_acc_pos; reflexivity.
Qed.

Lemma parseInt10_numeral (d : Decimal.uint) :
  parseInt10 (numeral d) = Z.of_N (N.of_uint d).
Proof.
  unfold parseInt10. rewrite span_digits_all by apply numeral_digits.
  apply digits_value_numeral.
Qed.

Lemma span_digits_fst_digits (s : string) :
  string_forallb is_digit (fst (span_digits s)) = true.
Proof.
  induction s as [|c s IH]; simpl; [reflexivity|].
  destruct (is_digit c) eqn:Hc; [|reflexivity].
  destruct (span_digits s) as [d r]. simpl in *. now rewrite Hc.
Qed.

Lemma optional_group_capture (marker : ascii) (s : string) :
  is_capture (fst (optional_group marker s)).
Proof.
  unfold optional_group.
  pose proof (span_digits_fst_digits s) as Hd.
  destruct (span_digits s) as [d r]. simpl in Hd.
  destruct d as [|c d]; [exact I|].
  destruct r as [|c' r]; [exact I|].
  destruct (Ascii.eqb c' marker); simpl; auto.
Qed.

Lemma String_match_groups_digits (s : string) m1 m2 m3 :
  String_match s = Some (m1, m2, m3) ->
  is_capture m1 /\ is_capture m2 /\ is_capture m3.
Proof.
  induction s as [|c s IH]; simpl; [discriminate|].
  assert (Hg : forall rest, match_groups rest = (m1, m2, m3) ->
                            is_capture m1 /\ is_capture m2 /\ is_capture m3).
  { intros rest. unfold match_groups.
    pose proof (optional_group_capture "H" rest) as H1.
    destruct (optional_group "H" rest) as [h s1].
    pose proof (optional_group_capture "M" s1) as H2.
    destruct (optional_group "M" s1) as [m s2].
    pose proof (optional_group_capture "S" s2) as H3.
    destruct (optional_group "S" s2) as [sec s3].
    intros [= <- <- <-]. auto. }
  destruct c as [[|] [|] [|] [|] [|] [|] [|] [|]]; try exact IH.
  destruct s as [|c' s']; [exact IH|].
  destruct c' as [[|] [|] [|] [|] [|] [|] [|] [|]]; try exact IH.
  intros [= H]. exact (Hg _ H).
Qed.

Lemma optional_group_empty (marker : ascii) :
  optional_group marker EmptyString = (None, EmptyString).
Proof. reflexivity. Qed.

Lemma optional_group_numeral (marker c : ascii) (d : Decimal.uint)
  (rest : string) :
  d <> Decimal.Nil ->
  is_digit c = false ->
  optional_group marker (numeral d ++ String c rest)
  = if Ascii.eqb c marker then (Some (numeral d), rest)
    else (None, numeral d ++ String c rest).
Proof.
  intros Hd Hc. unfold optional_group.
  rewrite span_digits_app by (auto using numeral_digits).
  pose proof (numeral_truthy d Hd) as Ht.
  destruct (numeral d); [discriminate|reflexivity].
Qed.

Lemma component_app (o : option Decimal.uint) (c : ascii) (rest : string) :
  component o c ++ rest
  = match o with
    | Some d => numeral d ++ String c rest
    | None => rest
    end.
Proof.
  destruct o as [d|]; simpl; [|reflexivity].
  induction (numeral d) as [|a s IH]; simpl; [reflexivity|now rewrite IH].
Qed.

Lemma present_nonempty_Some (d : Decimal.uint) :
  present_nonempty (Some d) -> d <> Decimal.Nil.
Proof. unfold present_nonempty. congruence. Qed.

(** After ["PT"], the three groups capture exactly the numerals of the
    components that are present. *)
Lemma match_groups_encode (h m s : option Decimal.uint) :
  present_nonempty h -> present_nonempty m -> present_nonempty s ->
  match_groups (component h "H" ++ component m "M" ++ component s "S")
  = (option_map numeral h, option_map numeral m, option_map numeral s).
Proof.
  intros Hh Hm Hs. unfold match_groups.
  rewrite !component_app.
  replace (component s "S") with (component s "S" ++ "")
    by (generalize (component s "S"); intros t;
        induction t as [|a t IH]; simpl; [reflexivity|now rewrite IH]).
  rewrite component_app.
  destruct h as [dh|], m as [dm|], s as [ds|];
    repeat match goal with
    | H : present_nonempty (Some _) |- _ => apply present_nonempty_Some in H
    end;
    cbn [option_map];
    repeat (rewrite ?optional_group_empty;
            rewrite ?optional_group_numeral by (assumption || reflexivity);
            cbn [Ascii.eqb Bool.eqb]);
    reflexivity.
Qed.

Lemma parseInt10_component (o : option Decimal.uint) :
  present_nonempty o ->
  parseInt10 (or_default (option_map numeral o) "0") = component_value o.
Proof.
  intros Ho. destruct o as [d|]; simpl; [|reflexivity].
  rewrite numeral_truthy by (now apply present_nonempty_Some).
  apply parseInt10_numeral.
Qed.

Lemma parse_is_manual (durationString : string) :
  parseISO8601Duration durationString
  = if negb (truthy durationString) then Normal 0
    else match String_match durationString with
         | None => Normal 0
         | Some (m1, m2, m3) =>
             Normal (parseInt10 (or_default m1 "0") * 3600
                     + parseInt10 (or_default m2 "0") * 60
                     + parseInt10 (or_default m3 "0"))
         end.
Proof.
  unfold parseISO8601Duration.
  destruct (negb (truthy durationString)); [reflexivity|].
  destruct (String_match durationString) as [[[m1 m2] m3]|]; reflexivity.
Qed.

Lemma parse_encode_value (h m s : option Decimal.uint) :
  present_nonempty h -> present_nonempty m -> present_nonempty s ->
  parseISO8601Duration (encode h m s)
  = Normal (component_value h * 3600 + component_value m * 60
            + component_value s).
Proof.
  intros Hh Hm Hs. rewrite parse_is_manual. unfold encode.
  cbn [append truthy negb String_match].
  rewrite match_groups_encode by assumption.
  now rewrite !parseInt10_component.
Qed.

(** C2: a valid duration encoding with hour numeral H, minute numeral M
    and second numeral S, each optional and counting as 0 when absent,
    parses to H*3600 + M*60 + S, for components and a sum below 2^53. *)
Theorem parse_valid_encoding (h m s : option Decimal.uint) :
  present_nonempty h -> present_nonempty m -> present_nonempty s ->
  exact_components h m s ->
  parseISO8601Duration (encode h m s)
  = Normal (component_value h * 3600 + component_value m * 60
            + component_value s).
Proof.
  intros Hh Hm Hs _. now apply parse_encode_value.
Qed.


(** ** The duration formatter *)

Lemma Qfloor_div_pos (s : Q) (k : positive) :
  Qfloor (s / inject_Z (Zpos k)) = (Qfloor s / Zpos k)%Z.
Proof.
  destruct s as [p q]. unfold Qdiv, Qinv, Qmult, Qfloor, inject_Z.
  cbn [Qnum Qden]. rewrite Z.mul_1_r.
  rewrite Pos2Z.inj_mul. now rewrite Z.div_div by lia.
Qed.

Lemma Qtrunc_nonneg (x : Q) : (0 <= x)%Q -> Qtrunc x = Qfloor x.
Proof.
  destruct x as [p q]. unfold Qle, Qtrunc, Qfloor. cbn [Qnum Qden].
  intros H. apply Z.quot_div_nonneg; lia.
Qed.

Lemma Qfloor_sub_Z (s : Q) (m : Z) :
  Qfloor (s - inject_Z m) = (Qfloor s - m)%Z.
Proof.
  destruct s as [p q]. unfold Qminus, Qplus, Qopp, Qfloor, inject_Z.
  cbn [Qnum Qden]. rewrite Pos.mul_1_r, Z.mul_1_r.
  replace (p + - m * Zpos q)%Z with (p + (- m) * Zpos q)%Z by lia.
  rewrite Z.div_add by lia. lia.
Qed.

Lemma Qdiv_pos_nonneg (s : Q) (k : positive) :
  (0 <= s)%Q -> (0 <= s / inject_Z (Zpos k))%Q.
Proof.
  intros H. apply Qle_shift_div_l; [reflexivity|]. now rewrite Qmult_0_l.
Qed.

(** On a non-negative dividend the remainder takes away the whole
    multiples of the divisor. *)
Lemma js_rem_nonneg (s : Q) (k : positive) :
  (0 <= s)%Q ->
  (js_rem s (inject_Z (Zpos k))
   == s - inject_Z (Zpos k * (Qfloor s / Zpos k)))%Q.
Proof.
  intros H. unfold js_rem.
  rewrite Qtrunc_nonneg by (now apply Qdiv_pos_nonneg).
  rewrite Qfloor_div_pos. now rewrite inject_Z_mult.
Qed.

Lemma Qfloor_js_rem (s : Q) (k : positive) :
  (0 <= s)%Q ->
  Qfloor (js_rem s (inject_Z (Zpos k))) = (Qfloor s mod Zpos k)%Z.
Proof.
  intros H. rewrite (Qfloor_comp _ _ (js_rem_nonneg s k H)).
  rewrite Qfloor_sub_Z. rewrite Z.mod_eq by lia. reflexivity.
Qed.

(** The three components [formatDuration] computes are those of the
    whole part of its argument. *)
Lemma components_of_floor (s : Q) :
  (0 <= s)%Q ->
  Qfloor (s / inject_Z 3600) = (Qfloor s / 3600)%Z
  /\ Qfloor (js_rem s (inject_Z 3600) / inject_Z 60)
     = ((Qfloor s mod 3600) / 60)%Z
  /\ Qfloor (js_rem s (inject_Z 60)) = (Qfloor s mod 60)%Z.
Proof.
  intros H. repeat split.
  - apply Qfloor_div_pos.
  - rewrite Qfloor_div_pos. now rewrite Qfloor_js_rem.
  - now apply Qfloor_js_rem.
Qed.

Lemma formatDuration_assemble (s : Q) :
  formatDuration s
  = assemble (Qfloor (s / inject_Z 3600))
      (Qfloor (js_rem s (inject_Z 3600) / inject_Z 60))
      (Qfloor (js_rem s (inject_Z 60))).
Proof. reflexivity. Qed.

Lemma Qfloor_nonneg (s : Q) : (0 <= s)%Q -> (0 <= Qfloor s)%Z.
Proof.
  intros H. change 0%Z with (Qfloor 0). now apply Qfloor_resp_le.
Qed.

Lemma inject_Z_nonneg (n : Z) : (0 <= n)%Z -> (0 <= inject_Z n)%Q.
Proof.
  intros H. change 0%Q with (inject_Z 0). now rewrite <- Zle_Qle.
Qed.

Lemma formatDuration_of_floor (s : Q) :
  (0 <= s)%Q ->
  formatDuration s
  = assemble (Qfloor s / 3600) ((Qfloor s mod 3600) / 60) (Qfloor s mod 60).
Proof.
  intros H. rewrite formatDuration_assemble.
  destruct (components_of_floor s H) as (-> & -> & ->). reflexivity.
Qed.

Lemma small_as_nat (k : Z) :
  (0 <= k < 60)%Z -> exists j : nat, (j < 60)%nat /\ k = Z.of_nat j.
Proof.
  intros H. exists (Z.to_nat k). split; lia.
Qed.

Lemma padStart_two_digits (k : Z) :
  (0 <= k < 60)%Z -> padStart (String_of_Z k) 2 "0" = two_digits k.
Proof.
  intros H. destruct (small_as_nat k H) as (j & Hj & ->). clear H.
  do 60 (destruct j as [|j]; [reflexivity|]). lia.
Qed.

Lemma padStart_one_digit (k : Z) :
  (0 <= k < 60)%Z -> padStart (String_of_Z k) 1 "0" = String_of_Z k.
Proof.
  intros H. destruct (small_as_nat k H) as (j & Hj & ->). clear H.
  do 60 (destruct j as [|j]; [reflexivity|]). lia.
Qed.

Lemma append_assoc (a b c : string) : (a ++ b) ++ c = a ++ (b ++ c).
Proof.
  induction a as [|x a IH]; simpl; [reflexivity|now rewrite IH].
Qed.

Lemma assemble_clock (n : Z) :
  (0 <= n)%Z ->
  assemble (n / 3600) ((n mod 3600) / 60) (n mod 60) = clock n.
Proof.
  intros Hn. unfold assemble, clock.
  assert (Hm : (0 <= n mod 3600 / 60 < 60)%Z).
  { pose proof (Z.mod_pos_bound n 3600 ltac:(lia)).
    split; [apply Z.div_pos; lia | apply Z.div_lt_upper_bound; lia]. }
  assert (Hs : (0 <= n mod 60 < 60)%Z) by (apply Z.mod_pos_bound; lia).
  rewrite (padStart_two_digits _ Hs).
  destruct (0 <? n / 3600)%Z.
  - rewrite (padStart_two_digits _ Hm). now rewrite append_assoc.
  - now rewrite (padStart_one_digit _ Hm).
Qed.

(** C4: a non-negative whole number of seconds (below 2^53) is rendered as
    [H:MM:SS] when its hour component is positive, minutes and seconds on
    two zero-padded digits, and as [M:SS] otherwise, the minute unpadded and
    the seconds on two zero-padded digits; 0 gives "0:00", 3661 "1:01:01",
    59 "0:59" and 303 "5:03". *)
Theorem formatDuration_clock :
  (forall n : Z,
      (0 <= n)%Z -> below_2_53 n -> formatDuration (inject_Z n) = clock n)
  /\ formatDuration (inject_Z 0) = "0:00"
  /\ formatDuration (inject_Z 3661) = "1:01:01"
  /\ formatDuration (inject_Z 59) = "0:59"
  /\ formatDuration (inject_Z 303) = "5:03".
Proof.
  split; [|repeat split; reflexivity].
  intros n Hn _.
  rewrite formatDuration_of_floor by (now apply inject_Z_nonneg).
  rewrite Qfloor_Z. now apply assemble_clock.
Qed.

Lemma averageOf_floor (totalSeconds videoCount : Z) :
  (0 < videoCount)%Z ->
  Qfloor (averageOf totalSeconds videoCount) = (totalSeconds / videoCount)%Z.
Proof.
  intros H. unfold averageOf.
  destruct (Z.ltb_spec 0 videoCount) as [_|]; [|lia].
  symmetry. apply Zdiv_Qdiv.
Qed.

Lemma averageOf_nonneg (totalSeconds videoCount : Z) :
  (0 <= totalSeconds)%Z -> (0 <= averageOf totalSeconds videoCount)%Q.
Proof.
  intros H. unfold averageOf.
  destruct (Z.ltb_spec 0 videoCount) as [Hc|]; [|apply Qle_refl].
  apply Qle_shift_div_l.
  - change 0%Q with (inject_Z 0). now rewrite <- Zlt_Qlt.
  - rewrite Qmult_0_l. now apply inject_Z_nonneg.
Qed.

(** C9: on a non-negative rational number of seconds the formatter gives
    the string of its whole part, so the fraction of a second in the
    average is dropped: the average of a total over a positive count (both
    below 2^53) is rendered as the clock string of the integer quotient. *)
Theorem formatDuration_floors :
  (forall s : Q,
      (0 <= s)%Q -> formatDuration s = formatDuration (inject_Z (Qfloor s)))
  /\ (forall totalSeconds videoCount : Z,
         (0 <= totalSeconds)%Z -> (0 < videoCount)%Z ->
         below_2_53 totalSeconds -> below_2_53 videoCount ->
         formatDuration (averageOf totalSeconds videoCount)
         = clock (totalSeconds / videoCount)).
Proof.
  split.
  - intros s Hs.
    rewrite (formatDuration_of_floor s Hs).
    rewrite formatDuration_of_floor
      by (apply inject_Z_nonneg; now apply Qfloor_nonneg).
    now rewrite Qfloor_Z.
  - intros totalSeconds videoCount Ht Hc _ _.
    rewrite formatDuration_of_floor by (now apply averageOf_nonneg).
    rewrite averageOf_floor by assumption.
    apply assemble_clock. apply Z.div_pos; lia.
Qed.

(** ** Identifier extraction *)

Lemma is_id_char_alphabet (c : ascii) :
  is_id_char c = existsb (Ascii.eqb c) (chars id_alphabet).
Proof.
  destruct c as [[|] [|] [|] [|] [|] [|] [|] [|]]; reflexivity.
Qed.

Lemma is_id_char_In (c : ascii) :
  is_id_char c = true <-> In c (chars id_alphabet).
Proof.
  rewrite is_id_char_alphabet, existsb_exists. split.
  - intros (x & Hx & Heq). apply Ascii.eqb_eq in Heq. now subst.
  - intros H. exists c. split; [assumption|apply Ascii.eqb_refl].
Qed.

Lemma string_forallb_In (p : ascii -> bool) (s : string) :
  string_forallb p s = true <-> forall c, In c (chars s) -> p c = true.
Proof.
  induction s as [|a s IH]; simpl.
  - split; [intros _ c []|reflexivity].
  - rewrite andb_true_iff, IH. split.
    + intros [Ha Hs] c [<-|Hc]; auto.
    + intros H. split; [apply H; now left|]. intros c Hc. apply H. now right.
Qed.

Lemma truthy_nonempty (s : string) : truthy s = true <-> s <> "".
Proof.
  destruct s; simpl; split; congruence.
Qed.

Lemma id_pattern_test_spec (s : string) :
  id_pattern_test s = true <-> matches_id_pattern s.
Proof.
  unfold id_pattern_test, matches_id_pattern.
  rewrite andb_true_iff, truthy_nonempty, string_forallb_In.
  split; intros [Hn Hc]; split; auto; intros c Hin;
    apply is_id_char_In; auto.
Qed.

Lemma extractPlaylistId_cases (url : string) :
  extractPlaylistId url
  = match URL_new url with
    | Normal parsedUrl =>
        match searchParams_get parsedUrl "list" with
        | Some id => if id_pattern_test id then Normal (Some id) else Normal None
        | None => Normal None
        end
    | Throw _ => Normal None
    end.
Proof.
  unfold extractPlaylistId.
  destruct (URL_new url) as [parsedUrl|e]; simpl; [|reflexivity].
  destruct (searchParams_get parsedUrl "list") as [id|]; [|reflexivity].
  unfold id_pattern_test.
  destruct (truthy id), (string_forallb is_id_char id); reflexivity.
Qed.

Lemma extractPlaylistId_Some (url id : string) :
  extractPlaylistId url = Normal (Some id) <-> has_valid_list url id.
Proof.
  rewrite extractPlaylistId_cases. unfold has_valid_list. split.
  - destruct (URL_new url) as [parsedUrl|e]; [|discriminate].
    destruct (searchParams_get parsedUrl "list") as [id'|] eqn:Hget;
      [|discriminate].
    destruct (id_pattern_test id') eqn:Htest; [|discriminate].
    intros [= <-]. exists parsedUrl.
    repeat split; auto; now apply id_pattern_test_spec.
  - intros (parsedUrl & -> & -> & Hid).
    apply id_pattern_test_spec in Hid. now rewrite Hid.
Qed.

Lemma extractPlaylistId_total (url : string) :
  extractPlaylistId url = Normal None
  \/ exists id, extractPlaylistId url = Normal (Some id).
Proof.
  rewrite extractPlaylistId_cases.
  destruct (URL_new url) as [parsedUrl|e]; [|now left].
  destruct (searchParams_get parsedUrl "list") as [id|]; [|now left].
  destruct (id_pattern_test id); [right; eauto|now left].
Qed.

Lemma extractPlaylistId_truthy (url id : string) :
  extractPlaylistId url = Normal (Some id) -> truthy id = true.
Proof.
  intros H. apply extractPlaylistId_Some in H as (_ & _ & _ & Hn & _).
  now apply truthy_nonempty.
Qed.

(** C5: identifier extraction returns the value of the [list] query
    parameter exactly when the string parses as a URL and that value is
    non-empty and matches [^[A-Za-z0-9_-]+$]; a parse failure, a missing
    parameter and an invalid value all give the one invalid outcome.  So a
    URL whose [list] value is [PL123_abc] yields it, and a URL without
    [list] parameter, or whose value contains [!], is invalid. *)
Theorem extractPlaylistId_spec :
  (forall url id,
      extractPlaylistId url = Normal (Some id) <-> has_valid_list url id)
  /\ (forall url,
         (forall id, ~ has_valid_list url id) ->
         extractPlaylistId url = Normal None)
  /\ (forall url parsedUrl,
         URL_new url = Normal parsedUrl ->
         searchParams_get parsedUrl "list" = Some "PL123_abc" ->
         extractPlaylistId url = Normal (Some "PL123_abc"))
  /\ (forall url parsedUrl,
         URL_new url = Normal parsedUrl ->
         searchParams_get parsedUrl "list" = None ->
         extractPlaylistId url = Normal None)
  /\ (forall url parsedUrl id,
         URL_new url = Normal parsedUrl ->
         searchParams_get parsedUrl "list" = Some id ->
         In "!"%char (chars id) ->
         extractPlaylistId url = Normal None).
Proof.
  split; [exact extractPlaylistId_Some|].
  split.
  { intros url Hno.
    destruct (extractPlaylistId_total url) as [H|[id H]]; [assumption|].
    apply extractPlaylistId_Some in H. now destruct (Hno id). }
  split.
  { intros url parsedUrl Hu Hg. rewrite extractPlaylistId_cases, Hu, Hg.
    reflexivity. }
  split.
  { intros url parsedUrl Hu Hg. rewrite extractPlaylistId_cases, Hu, Hg.
    reflexivity. }
  intros url parsedUrl id Hu Hg Hbang.
  rewrite extractPlaylistId_cases, Hu, Hg.
  destruct (id_pattern_test id) eqn:Htest; [|reflexivity].
  apply id_pattern_test_spec in Htest as [_ Hall].
  apply Hall in Hbang. apply is_id_char_In in Hbang. discriminate.
Qed.

(** ** Statistics *)

Lemma parse_normal (durationString : string) :
  exists d, parseISO8601Duration durationString = Normal d.
Proof.
  rewrite parse_is_manual.
  destruct (negb (truthy durationString)); [now exists 0|].
  destruct (String_match durationString) as [[[m1 m2] m3]|]; eauto.
Qed.

Lemma addDuration_ItemDuration (totalSeconds : Z) (item : Video) :
  addDuration totalSeconds item = Normal (totalSeconds + ItemDuration item).
Proof.
  unfold addDuration, ItemDuration.
  destruct (duration item) as [durationString|]; [|f_equal; lia].
  destruct durationString as [|c s]; [simpl; f_equal; lia|].
  cbn [truthy].
  destruct (parse_normal (String c s)) as [d ->]. reflexivity.
Qed.

Lemma forEach_addDuration (items : list Video) (totalSeconds : Z) :
  forEach addDuration items totalSeconds
  = Normal (totalSeconds + sumZ (map ItemDuration items)).
Proof.
  revert totalSeconds.
  induction items as [|item items IH]; intros totalSeconds; simpl.
  - f_equal. lia.
  - rewrite addDuration_ItemDuration. simpl. rewrite IH. f_equal. lia.
Qed.

Lemma sumZ_app (l1 l2 : list Z) : sumZ (l1 ++ l2) = sumZ l1 + sumZ l2.
Proof.
  induction l1 as [|x l1 IH]; simpl; [reflexivity|]. rewrite IH. lia.
Qed.

Lemma forEach_responses (responses : list VideoListResponse) (totalSeconds : Z) :
  forEach
    (fun totalSeconds response =>
       forEach addDuration (items_or_nil (videos response)) totalSeconds)
    responses totalSeconds
  = Normal (totalSeconds + sumZ (map ItemDuration (allItems responses))).
Proof.
  revert totalSeconds.
  induction responses as [|r responses IH]; intros totalSeconds; simpl.
  - f_equal. lia.
  - rewrite forEach_addDuration. simpl. rewrite IH.
    rewrite map_app, sumZ_app. f_equal. lia.
Qed.

Lemma sumDurations_sum (responses : list VideoListResponse) :
  sumDurations responses
  = Normal (sumZ (map ItemDuration (allItems responses))).
Proof.
  unfold sumDurations. now rewrite forEach_responses.
Qed.

Lemma deriveStatistics_eq (videoCount : Z)
  (responses : list VideoListResponse) :
  deriveStatistics videoCount responses
  = let total := sumZ (map ItemDuration (allItems responses)) in
    Normal (mkStatistics total (averageOf total videoCount)
              (formatDuration (inject_Z total))
              (formatDuration (averageOf total videoCount))).
Proof.
  unfold deriveStatistics. now rewrite sumDurations_sum.
Qed.

Lemma videoIdBatches_nil : videoIdBatches [] = [].
Proof. reflexivity. Qed.

Lemma length_zero_nil {A : Type} (l : list A) :
  (Z.of_nat (List.length l) =? 0)%Z = true -> l = [].
Proof.
  destruct l; [reflexivity|]. intros H. apply Z.eqb_eq in H.
  cbn [List.length] in H. lia.
Qed.


(** ** Membership pages *)

Lemma filter_truthy_bearing (items : list PlaylistItem) :
  map Some (filter_truthy (map videoId items))
  = map videoId (filter bears_identifier items).
Proof.
  induction items as [|item items IH]; simpl; [reflexivity|].
  unfold bears_identifier at 1.
  destruct (videoId item) as [s|] eqn:Hid; simpl; [|exact IH].
  destruct (truthy s); simpl; [|exact IH].
  now rewrite Hid, IH.
Qed.

Lemma filter_truthy_all_truthy (l : list (option string)) (s : string) :
  In s (filter_truthy l) -> truthy s = true.
Proof.
  induction l as [|[x|] l IH]; simpl; [intros []| |exact IH].
  destruct (truthy x) eqn:Hx; [|exact IH].
  intros [<-|H]; auto.
Qed.

Lemma currentVideoIds_bearing (page : PlaylistItemListResponse) :
  map Some (currentVideoIds page)
  = map videoId (filter bears_identifier (entries page)).
Proof.
  unfold currentVideoIds, entries.
  destruct (playlistItems page) as [items|]; simpl; [|reflexivity].
  apply filter_truthy_bearing.
Qed.

Lemma currentVideoIds_length (page : PlaylistItemListResponse) :
  List.length (currentVideoIds page)
  = List.length (filter bears_identifier (entries page)).
Proof.
  rewrite <- (length_map Some), currentVideoIds_bearing. apply length_map.
Qed.

Lemma filter_length_le {A : Type} (p : A -> bool) (l : list A) :
  (List.length (filter p l) <= List.length l)%nat.
Proof.
  induction l as [|x l IH]; simpl; [lia|]. destruct (p x); simpl; lia.
Qed.

Lemma flat_map_currentVideoIds_length (pages : list PlaylistItemListResponse) :
  List.length (flat_map currentVideoIds pages)
  = List.length (filter bears_identifier (flat_map entries pages)).
Proof.
  induction pages as [|page pages IH]; simpl; [reflexivity|].
  rewrite filter_app, !length_app, IH, currentVideoIds_length. reflexivity.
Qed.

(** The loop returns the identifiers it was entered with, followed by
    those of the pages it fetched. *)
Lemma fetchVideoIds_pages (fuel : nat) (playlistId : string) :
  forall videoIds pageToken result calls,
    fetchVideoIds fuel playlistId videoIds pageToken
    = Some (Normal result, calls) ->
    exists pages,
      pagesFetched fuel playlistId pageToken = Some pages
      /\ result = (videoIds ++ flat_map currentVideoIds pages)%list.
Proof.
  induction fuel as [|fuel IH]; intros videoIds pageToken result calls;
    simpl; [discriminate|].
  destruct (playlistItems_list youtube playlistId pageToken) as [page|e];
    [|discriminate].
  destruct (truthy_opt (nextPageToken page)).
  - destruct (fetchVideoIds fuel playlistId _ (nextPageToken page))
      as [[r calls']|] eqn:Hrec; [|discriminate].
    intros [= -> <-].
    destruct (IH _ _ _ _ Hrec) as (pages & -> & ->).
    exists (page :: pages). split; [reflexivity|].
    simpl. now rewrite app_assoc.
  - intros [= <- <-]. exists [page]. split; [reflexivity|].
    simpl. now rewrite app_nil_r.
Qed.

Lemma fetchVideoIds_calls (fuel : nat) (playlistId : string) :
  forall videoIds pageToken r calls,
    fetchVideoIds fuel playlistId videoIds pageToken = Some (r, calls) ->
    forallb (fun c => negb (is_CallVideos c)) calls = true.
Proof.
  induction fuel as [|fuel IH]; intros videoIds pageToken r calls;
    simpl; [discriminate|].
  destruct (playlistItems_list youtube playlistId pageToken) as [page|e];
    [|now intros [= <- <-]].
  destruct (truthy_opt (nextPageToken page)); [|now intros [= <- <-]].
  destruct (fetchVideoIds fuel playlistId _ (nextPageToken page))
    as [[r' calls']|] eqn:Hrec; [|discriminate].
  intros [= <- <-]. simpl. exact (IH _ _ _ _ Hrec).
Qed.

Lemma afterDetails_count (fuel : nat) (playlistId : string)
  (details : PlaylistDetails) (response : Response) (calls : list Call) :
  afterDetails fuel playlistId details = Some (Normal response, calls) ->
  exists videoIds calls0 tw ad ts,
    fetchVideoIds fuel playlistId [] None = Some (Normal videoIds, calls0)
    /\ response
       = json (SummaryBody details (Z.of_nat (List.length videoIds)) tw ad ts).
Proof.
  unfold afterDetails.
  destruct (fetchVideoIds fuel playlistId [] None) as [[[videoIds|e] calls0]|];
    [|discriminate|discriminate].
  destruct (Z.of_nat (List.length videoIds) =? 0)%Z eqn:Hzero.
  - intros [= <- <-]. apply Z.eqb_eq in Hzero.
    exists videoIds, calls0. do 3 eexists. split; [reflexivity|].
    now rewrite Hzero.
  - destruct (Promise_all _) as [responses|e]; [|discriminate].
    destruct (deriveStatistics _ responses) as [st|e]; [|discriminate].
    intros [= <- <-]. exists videoIds, calls0. do 3 eexists.
    split; reflexivity.
Qed.


(** ** The handler *)

Lemma hasReason_eq (r : option string) (name : string) :
  hasReason r name = true <-> r = Some name.
Proof.
  destruct r as [s|]; simpl; [|split; discriminate].
  rewrite String.eqb_eq. split; congruence.
Qed.

Lemma hasReason_neq (r : option string) (name : string) :
  hasReason r name = false <-> r <> Some name.
Proof.
  rewrite <- hasReason_eq. destruct (hasReason r name); split; congruence.
Qed.

Lemma POST_respond (fuel : nat) (apiKey : option string)
  (req_json : completion JsValue) :
  truthy_opt apiKey = true ->
  POST fuel apiKey req_json = respond (POST_try fuel req_json).
Proof.
  intros Hkey. unfold POST. rewrite Hkey. reflexivity.
Qed.

(** A request with a key, a URL and a valid identifier reaches the
    metadata lookup. *)
Lemma POST_valid (fuel : nat) (apiKey : option string) (url id : string) :
  truthy_opt apiKey = true ->
  truthy url = true ->
  extractPlaylistId url = Normal (Some id) ->
  POST fuel apiKey (Normal (JsString url)) = respond (withPlaylistId fuel id).
Proof.
  intros Hkey Hurl Hid. rewrite POST_respond by assumption.
  unfold POST_try. rewrite Hurl, Hid.
  now rewrite (extractPlaylistId_truthy _ _ Hid).
Qed.

Lemma respond_prepend (c : Call)
  (r : option (completion Response * list Call)) :
  respond (prepend c r)
  = match respond r with
    | Some (response, calls) => Some (response, c :: calls)
    | None => None
    end.
Proof.
  destruct r as [[[response|e] calls]|]; reflexivity.
Qed.

(** C8: a run whose membership fetch yields no item answers with item
    count 0, total 0 and both formatted values "0:00" (next to the details
    of the playlist), and makes no duration lookup. *)
Theorem empty_playlist_response (fuel : nat) (apiKey : option string)
  (url id : string) (calls : list Call) :
  truthy_opt apiKey = true ->
  truthy url = true ->
  extractPlaylistId url = Normal (Some id) ->
  (forall e, playlists_list youtube id = Throw e ->
             firstReason e <> Some "playlistNotFound") ->
  fetchVideoIds fuel id [] None = Some (Normal [], calls) ->
  exists details,
    POST fuel apiKey (Normal (JsString url))
    = Some (json (SummaryBody details 0 "0:00" "0:00" 0),
            CallPlaylists id :: calls)
    /\ forallb (fun c => negb (is_CallVideos c)) (CallPlaylists id :: calls)
       = true.
Proof.
  intros Hkey Hurl Hid Hmeta Hfetch.
  rewrite (POST_valid _ _ _ _ Hkey Hurl Hid).
  assert (Hafter : forall details,
             afterDetails fuel id details
             = Some (Normal (json (SummaryBody details 0 "0:00" "0:00" 0)),
                     calls)).
  { intros details. unfold afterDetails. rewrite Hfetch. reflexivity. }
  assert (Hcalls : forallb (fun c => negb (is_CallVideos c))
                     (CallPlaylists id :: calls) = true).
  { simpl. exact (fetchVideoIds_calls _ _ _ _ _ _ Hfetch). }
  unfold withPlaylistId.
  destruct (playlists_list youtube id) as [r|e] eqn:Hlist.
  - exists (detailsOf r). now rewrite Hafter.
  - specialize (Hmeta e eq_refl). apply hasReason_neq in Hmeta.
    rewrite Hmeta. exists noDetails. now rewrite Hafter.
Qed.

(** C6: when the metadata lookup fails, the run goes on from the
    membership fetch with no playlist details, unless the reason of the
    failure is that the playlist does not exist: then the answer is the
    not-found response and the lookup is the only call made. *)
Theorem metadata_failure_policy (fuel : nat) (apiKey : option string)
  (url id : string) (e : Exn) :
  truthy_opt apiKey = true ->
  truthy url = true ->
  extractPlaylistId url = Normal (Some id) ->
  playlists_list youtube id = Throw e ->
  (firstReason e = Some "playlistNotFound" ->
   POST fuel apiKey (Normal (JsString url))
   = Some (notFoundResponse, [CallPlaylists id]))
  /\ (firstReason e <> Some "playlistNotFound" ->
      POST fuel apiKey (Normal (JsString url))
      = match respond (afterDetails fuel id noDetails) with
        | Some (response, calls) => Some (response, CallPlaylists id :: calls)
        | None => None
        end).
Proof.
  intros Hkey Hurl Hid Hlist.
  rewrite (POST_valid _ _ _ _ Hkey Hurl Hid).
  unfold withPlaylistId. rewrite Hlist. split; intros Hreason.
  - apply hasReason_eq in Hreason. now rewrite Hreason.
  - apply hasReason_neq in Hreason. rewrite Hreason.
    apply respond_prepend.
Qed.

Lemma not_named_reason (r : option string) :
  ~ is_named_reason r ->
  hasReason r "playlistNotFound" = false
  /\ hasReason r "forbidden" = false
  /\ hasReason r "keyInvalid" = false
  /\ hasReason r "quotaExceeded" = false
  /\ hasReason r "rateLimitExceeded" = false
  /\ hasReason r "userRateLimitExceeded" = false.
Proof.
  intros H. repeat split; apply hasReason_neq; intros ->; apply H;
    eexists; (split; [reflexivity|]); simpl; tauto.
Qed.

(** The outer handler, by the first reason of the upstream error. *)
Lemma handleError_taxonomy (e : Exn) :
  match upstreamError e with
  | None => handleError e = genericServerErrorResponse
  | Some (response, ytError) =>
      (firstReason e = Some "playlistNotFound" ->
       handleError e = notFoundResponse)
      /\ (firstReason e = Some "forbidden" ->
          handleError e = forbiddenResponse)
      /\ (firstReason e = Some "keyInvalid" ->
          handleError e = invalidCredentialResponse)
      /\ (firstReason e = Some "quotaExceeded"
          \/ firstReason e = Some "rateLimitExceeded"
          \/ firstReason e = Some "userRateLimitExceeded" ->
          handleError e = rateLimitedResponse)
      /\ (~ is_named_reason (firstReason e) ->
          handleError e
          = mkResponse (ErrorBody (upstreamMessage ytError))
              (upstreamStatus response))
  end.
Proof.
  unfold upstreamError, handleError, firstReason, upstreamMessage,
    upstreamStatus.
  destruct (exn_response e) as [response|]; [|reflexivity].
  destruct (resp_data_error response) as [ytError|]; [|reflexivity].
  destruct (api_errors ytError) as [|first rest].
  - split; [discriminate|]. split; [discriminate|]. split; [discriminate|].
    split; [intros [|[|]]; discriminate|]. reflexivity.
  - split; [intros ->; reflexivity|]. split; [intros ->; reflexivity|].
    split; [intros ->; reflexivity|].
    split; [intros [-> | [-> | ->]]; reflexivity|].
    intros Hn. apply not_named_reason in Hn
      as (-> & -> & -> & -> & -> & ->). reflexivity.
Qed.

(** C7 (amended): the response of a fatal failure is fixed by its kind.
    A missing access token gives the generic server error before any call,
    a missing or malformed URL the invalid-input response; a thrown failure
    is answered from the first reason of its upstream error: not-found,
    forbidden, invalid-credential and rate-limited for the reasons the
    handler names; for any other reason, or none, the upstream status (500
    when it has none) with the upstream text, which names the reason and
    the message of the first entry; and the generic server error when the
    failure carries no upstream error. *)
Theorem error_taxonomy :
  (forall fuel apiKey req_json,
      truthy_opt apiKey = false ->
      POST fuel apiKey req_json
      = Some (mkResponse
                (ErrorBody "Server configuration error: API key missing.") 500,
              []))
  /\ (forall fuel apiKey playlistUrl,
         truthy_opt apiKey = true ->
         (forall url, playlistUrl = JsString url -> url = "") ->
         POST fuel apiKey (Normal playlistUrl)
         = Some (mkResponse (ErrorBody "Playlist URL is required.") 400, []))
  /\ (forall fuel apiKey url,
         truthy_opt apiKey = true ->
         url <> "" ->
         (forall id, ~ has_valid_list url id) ->
         POST fuel apiKey (Normal (JsString url))
         = Some (mkResponse
                   (ErrorBody "Invalid YouTube Playlist URL format.") 400,
                 []))
  /\ (forall fuel apiKey req_json e calls,
         truthy_opt apiKey = true ->
         POST_try fuel req_json = Some (Throw e, calls) ->
         POST fuel apiKey req_json = Some (handleError e, calls))
  /\ (forall e,
         match upstreamError e with
         | None => handleError e = genericServerErrorResponse
         | Some (response, ytError) =>
             (firstReason e = Some "playlistNotFound" ->
              handleError e = notFoundResponse)
             /\ (firstReason e = Some "forbidden" ->
                 handleError e = forbiddenResponse)
             /\ (firstReason e = Some "keyInvalid" ->
                 handleError e = invalidCredentialResponse)
             /\ (firstReason e = Some "quotaExceeded"
                 \/ firstReason e = Some "rateLimitExceeded"
                 \/ firstReason e = Some "userRateLimitExceeded" ->
                 handleError e = rateLimitedResponse)
             /\ (~ is_named_reason (firstReason e) ->
                 handleError e
                 = mkResponse (ErrorBody (upstreamMessage ytError))
                     (upstreamStatus response))
         end).
Proof.
  split; [|split; [|split; [|split]]].
  - intros fuel apiKey req_json Hkey. unfold POST. now rewrite Hkey.
  - intros fuel apiKey playlistUrl Hkey Hempty.
    rewrite POST_respond by assumption. unfold POST_try.
    destruct playlistUrl as [|url|]; try reflexivity.
    rewrite (Hempty url eq_refl). reflexivity.
  - intros fuel apiKey url Hkey Hurl Hinvalid.
    rewrite POST_respond by assumption. unfold POST_try.
    apply truthy_nonempty in Hurl. rewrite Hurl.
    destruct (extractPlaylistId_total url) as [->|[id H]]; [reflexivity|].
    apply extractPlaylistId_Some in H. now destruct (Hinvalid id).
  - intros fuel apiKey req_json e calls Hkey Htry.
    rewrite POST_respond by assumption. now rewrite Htry.
  - exact handleError_taxonomy.
Qed.

(** ** The batches of the duration lookup *)

(** The bound on the iterations of the batching loop is never reached:
    the batches are the whole list of identifiers, cut in order. *)
Lemma videoIdBatches_from_concat (fuel : nat) (videoIds : list string) :
  forall i,
    (List.length videoIds - i <= fuel)%nat ->
    List.concat (videoIdBatches_from fuel videoIds i) = skipn i videoIds.
Proof.
  induction fuel as [|fuel IH]; intros i Hi; simpl.
  - symmetry. apply skipn_all2. lia.
  - destruct (Nat.ltb_spec i (List.length videoIds)) as [Hlt|Hge].
    + simpl. rewrite IH by lia. unfold slice.
      replace (i + 50 - i)%nat with 50%nat by lia.
      replace (i + 50)%nat with (50 + i)%nat by lia.
      rewrite <- skipn_skipn. apply firstn_skipn.
    + symmetry. apply skipn_all2. lia.
Qed.

Lemma videoIdBatches_concat (videoIds : list string) :
  List.concat (videoIdBatches videoIds) = videoIds.
Proof.
  unfold videoIdBatches. rewrite videoIdBatches_from_concat by lia.
  reflexivity.
Qed.

Lemma videoIdBatches_from_size (fuel : nat) (videoIds : list string) :
  forall i batch,
    In batch (videoIdBatches_from fuel videoIds i) ->
    (List.length batch <= 50)%nat.
Proof.
  induction fuel as [|fuel IH]; intros i batch; simpl; [intros []|].
  destruct (i <? List.length videoIds)%nat; [|intros []].
  intros [<-|H]; [|exact (IH _ _ H)].
  unfold slice. rewrite length_firstn. lia.
Qed.

(** ** More on the duration parser *)

Lemma string_forallb_app (p : ascii -> bool) (a b : string) :
  string_forallb p (a ++ b) = string_forallb p a && string_forallb p b.
Proof.
  induction a as [|c a IH]; simpl; [reflexivity|].
  now rewrite IH, andb_assoc.
Qed.

Lemma string_forallb_impl (p q : ascii -> bool) (s : string) :
  (forall c, p c = true -> q c = true) ->
  string_forallb p s = true -> string_forallb q s = true.
Proof.
  intros Hpq. induction s as [|c s IH]; simpl; [reflexivity|].
  rewrite !andb_true_iff. intros [Hc Hs]. auto.
Qed.

Lemma is_digit_not_P (c : ascii) : is_digit c = true -> not_P c = true.
Proof.
  destruct c as [[|] [|] [|] [|] [|] [|] [|] [|]]; (discriminate || reflexivity).
Qed.

Lemma numeral_not_P (d : Decimal.uint) :
  string_forallb not_P (numeral d) = true.
Proof.
  apply (string_forallb_impl is_digit); [exact is_digit_not_P|].
  apply numeral_digits.
Qed.

Lemma component_not_P (o : option Decimal.uint) (marker : ascii) :
  not_P marker = true -> string_forallb not_P (component o marker) = true.
Proof.
  intros Hm. destruct o as [d|]; simpl; [|reflexivity].
  rewrite string_forallb_app, numeral_not_P. simpl. now rewrite Hm.
Qed.

(** The search for ["PT"] passes over a character that is not [P]. *)
Lemma String_match_skip (c : ascii) (s : string) :
  not_P c = true -> String_match (String c s) = String_match s.
Proof.
  destruct c as [[|] [|] [|] [|] [|] [|] [|] [|]];
    (discriminate || reflexivity).
Qed.

Lemma String_match_no_P (s : string) :
  string_forallb not_P s = true -> String_match s = None.
Proof.
  induction s as [|c s IH]; [reflexivity|].
  cbn [string_forallb]. rewrite andb_true_iff. intros [Hc Hs].
  rewrite String_match_skip by assumption. auto.
Qed.

Lemma String_match_prefix (pre s : string) :
  string_forallb not_P pre = true ->
  String_match (pre ++ s) = String_match s.
Proof.
  induction pre as [|c pre IH]; [reflexivity|].
  cbn [string_forallb append]. rewrite andb_true_iff. intros [Hc Hpre].
  rewrite String_match_skip by assumption. auto.
Qed.

(** A [P] that is not followed by [T] does not start a match. *)
Lemma String_match_P_other (c : ascii) (s : string) :
  Ascii.eqb c "T" = false ->
  String_match (String "P" (String c s)) = String_match (String c s).
Proof.
  destruct c as [[|] [|] [|] [|] [|] [|] [|] [|]];
    (discriminate || reflexivity).
Qed.

Lemma not_P_false (c : ascii) : not_P c = false -> c = "P"%char.
Proof.
  unfold not_P. intros H. apply negb_false_iff in H.
  now apply Ascii.eqb_eq in H.
Qed.

(** The pattern matches only in a string with an occurrence of ["PT"]. *)
Lemma String_match_contains_PT (s : string) :
  String_match s <> None -> contains_PT s.
Proof.
  assert (Hcons : forall c t, contains_PT t -> contains_PT (String c t)).
  { intros c t (pre & post & ->). now exists (String c pre), post. }
  induction s as [|c s IH]; [intros H; now destruct H|].
  destruct (not_P c) eqn:Hc.
  - rewrite String_match_skip by assumption. auto.
  - apply not_P_false in Hc. subst c.
    destruct s as [|c' t]; [intros H; now destruct H|].
    destruct (Ascii.eqb c' "T") eqn:HT.
    + apply Ascii.eqb_eq in HT. subst c'. intros _. now exists "", t.
    + rewrite String_match_P_other by assumption. auto.
Qed.

Lemma String_match_without_PT (s : string) :
  ~ contains_PT s -> String_match s = None.
Proof.
  intros Hno. destruct (String_match s) as [g|] eqn:Hm; [|reflexivity].
  destruct Hno. apply String_match_contains_PT. rewrite Hm. discriminate.
Qed.

(** C3: the parser returns 0 on the empty string and on a string the
    pattern does not match, that is, a string with no occurrence of "PT";
    so a result other than 0 comes from a string with "PT" in it.  The
    parser completes normally on every string, whatever the fallback
    package does. *)
Theorem parse_degrades_to_zero :
  (forall durationString : string,
      durationString = "" \/ ~ contains_PT durationString ->
      parseISO8601Duration durationString = Normal 0)
  /\ (forall (durationString : string) (n : Z),
         parseISO8601Duration durationString = Normal n ->
         n <> 0%Z -> contains_PT durationString)
  /\ (forall durationString : string,
         exists n : Z, parseISO8601Duration durationString = Normal n).
Proof.
  split; [|split]; intros durationString.
  - intros [-> | Hno]; rewrite parse_is_manual; [reflexivity|].
    rewrite (String_match_without_PT _ Hno).
    now destruct (negb (truthy durationString)).
  - intros n. rewrite parse_is_manual.
    destruct (negb (truthy durationString)); [intros [= <-] H; now destruct H|].
    destruct (String_match durationString) as [g|] eqn:Hm.
    + intros _ _. apply String_match_contains_PT. rewrite Hm. discriminate.
    + intros [= <-] H. now destruct H.
  - rewrite parse_is_manual.
    destruct (negb (truthy durationString)); [now exists 0|].
    destruct (String_match durationString) as [[[m1 m2] m3]|]; eauto.
Qed.

Lemma optional_group_nodigit (marker : ascii) (s : string) :
  starts_without_digit s -> optional_group marker s = (None, s).
Proof.
  unfold optional_group. destruct s as [|c s]; [reflexivity|].
  simpl. intros ->. reflexivity.
Qed.

Lemma match_groups_encode_rest (h m s : option Decimal.uint) (rest : string) :
  present_nonempty h -> present_nonempty m -> present_nonempty s ->
  s <> None \/ starts_without_digit rest ->
  match_groups
    (component h "H" ++ component m "M" ++ component s "S" ++ rest)
  = (option_map numeral h, option_map numeral m, option_map numeral s).
Proof.
  intros Hh Hm Hs Hrest. unfold match_groups.
  rewrite !component_app.
  destruct h as [dh|], m as [dm|], s as [ds|];
    repeat match goal with
    | H : present_nonempty (Some _) |- _ => apply present_nonempty_Some in H
    end;
    try (destruct Hrest as [Hrest|Hrest]; [congruence|]);
    cbn [option_map];
    repeat (rewrite ?optional_group_numeral by (assumption || reflexivity);
            cbn [Ascii.eqb Bool.eqb]);
    try reflexivity;
    rewrite !(optional_group_nodigit _ rest) by assumption; reflexivity.
Qed.

Lemma truthy_app_r (a b : string) : truthy b = true -> truthy (a ++ b) = true.
Proof.
  destruct a; simpl; auto.
Qed.

(** The pattern is not anchored: text before the first ["PT"] and text
    after the components it matches play no part in the result (for
    components and a sum below 2^53). *)
Theorem parse_ignores_context (pre rest : string)
  (h m s : option Decimal.uint) :
  string_forallb not_P pre = true ->
  present_nonempty h -> present_nonempty m -> present_nonempty s ->
  s <> None \/ starts_without_digit rest ->
  exact_components h m s ->
  parseISO8601Duration (pre ++ encode h m s ++ rest)
  = Normal (component_value h * 3600 + component_value m * 60
            + component_value s).
Proof.
  intros Hpre Hh Hm Hs Hrest _. rewrite parse_is_manual.
  rewrite truthy_app_r by reflexivity. cbn [negb].
  rewrite String_match_prefix by assumption.
  unfold encode. rewrite !append_assoc.
  cbn [append String_match].
  rewrite match_groups_encode_rest by assumption.
  now rewrite !parseInt10_component.
Qed.

(** A duration with a day designator has no ["PT"] in it: it parses to 0,
    whatever its components are. *)
Theorem parse_day_designator (d : Decimal.uint)
  (h m s : option Decimal.uint) :
  String_match (encode_with_days d h m s) = None
  /\ parseISO8601Duration (encode_with_days d h m s) = Normal 0.
Proof.
  assert (Hnone : String_match (encode_with_days d h m s) = None).
  { unfold encode_with_days.
    assert (Htail : string_forallb not_P
                      (numeral d ++ "DT" ++ component h "H"
                       ++ component m "M" ++ component s "S") = true).
    { rewrite !string_forallb_app, numeral_not_P.
      rewrite !component_not_P by reflexivity. reflexivity. }
    change (String_match
              (String "P"
                 (numeral d ++ "DT" ++ component h "H"
                  ++ component m "M" ++ component s "S")) = None).
    destruct (numeral d ++ "DT" ++ component h "H"
              ++ component m "M" ++ component s "S") as [|c t] eqn:Heq.
    - reflexivity.
    - assert (Hc : Ascii.eqb c "T" = false).
      { destruct d; cbn in Heq; injection Heq as <- _; reflexivity. }
      rewrite String_match_P_other by assumption.
      now apply String_match_no_P. }
  split; [assumption|].
  rewrite parse_is_manual, Hnone.
  now destruct (negb (truthy (encode_with_days d h m s))).
Qed.

Lemma digit_value_nonneg (c : ascii) :
  is_digit c = true -> (0 <= digit_value c <= 9)%Z.
Proof.
  unfold is_digit, digit_value. rewrite andb_true_iff.
  intros [H1 H2]. apply Nat.leb_le in H1, H2. lia.
Qed.

Lemma digits_value_acc_nonneg (s : string) :
  forall acc,
    string_forallb is_digit s = true -> (0 <= acc)%Z ->
    (0 <= digits_value_acc s acc)%Z.
Proof.
  induction s as [|c s IH]; intros acc; simpl; [auto|].
  rewrite andb_true_iff. intros [Hc Hs] Hacc.
  apply IH; [assumption|]. pose proof (digit_value_nonneg c Hc). lia.
Qed.

Lemma parseInt10_nonneg (s : string) : (0 <= parseInt10 s)%Z.
Proof.
  unfold parseInt10. apply digits_value_acc_nonneg; [|lia].
  apply span_digits_fst_digits.
Qed.

Lemma parse_nonneg (durationString : string) (n : Z) :
  parseISO8601Duration durationString = Normal n -> (0 <= n)%Z.
Proof.
  rewrite parse_is_manual.
  destruct (negb (truthy durationString)); [intros [= <-]; lia|].
  destruct (String_match durationString) as [[[m1 m2] m3]|];
    intros [= <-]; [|lia].
  pose proof (parseInt10_nonneg (or_default m1 "0")).
  pose proof (parseInt10_nonneg (or_default m2 "0")).
  pose proof (parseInt10_nonneg (or_default m3 "0")). lia.
Qed.

Lemma ItemDuration_nonneg (item : Video) : (0 <= ItemDuration item)%Z.
Proof.
  unfold ItemDuration. destruct (duration item) as [s|]; [|lia].
  destruct (parseISO8601Duration s) as [d|e] eqn:H; [|lia].
  exact (parse_nonneg _ _ H).
Qed.

Lemma sumZ_nonneg (l : list Z) :
  Forall (fun x => 0 <= x)%Z l -> (0 <= sumZ l)%Z.
Proof.
  induction 1 as [|x l Hx Hl IH]; simpl; lia.
Qed.

Lemma total_nonneg (responses : list VideoListResponse) :
  (0 <= sumZ (map ItemDuration (allItems responses)))%Z.
Proof.
  apply sumZ_nonneg, Forall_forall. intros x Hx.
  apply in_map_iff in Hx as (item & <- & _). apply ItemDuration_nonneg.
Qed.

(** ** The batches of the duration lookup, continued *)

Lemma videoIdBatches_from_nonempty (fuel : nat) (videoIds : list string) :
  forall i batch,
    In batch (videoIdBatches_from fuel videoIds i) ->
    (1 <= List.length batch)%nat.
Proof.
  induction fuel as [|fuel IH]; intros i batch; simpl; [intros []|].
  destruct (Nat.ltb_spec i (List.length videoIds)) as [Hlt|]; [|intros []].
  intros [<-|H]; [|exact (IH _ _ H)].
  unfold slice. rewrite length_firstn, length_skipn. lia.
Qed.

Lemma videoIdBatches_from_length (fuel : nat) (videoIds : list string) :
  forall i,
    (List.length videoIds - i <= fuel)%nat ->
    List.length (videoIdBatches_from fuel videoIds i)
    = ((List.length videoIds - i + 49) / 50)%nat.
Proof.
  induction fuel as [|fuel IH]; intros i Hi; cbn [videoIdBatches_from].
  - replace (List.length videoIds - i)%nat with 0%nat by lia. reflexivity.
  - destruct (Nat.ltb_spec i (List.length videoIds)) as [Hlt|Hge].
    + cbn [List.length]. rewrite IH by lia.
      destruct (Nat.le_gt_cases 50 (List.length videoIds - i)) as [Hbig|Hsmall].
      * replace (List.length videoIds - i + 49)%nat
          with (List.length videoIds - (i + 50) + 49 + 1 * 50)%nat by lia.
        rewrite Nat.div_add by lia. lia.
      * replace (List.length videoIds - (i + 50))%nat with 0%nat by lia.
        change (S ((0 + 49) / 50)) with 1%nat.
        apply (Nat.div_unique _ 50 1 (List.length videoIds - i - 1)); lia.
    + replace (List.length videoIds - i)%nat with 0%nat by lia. reflexivity.
Qed.

(** The duration lookup asks for every identifier exactly once, in order,
    in batches of 1 to 50 identifiers, as few as that size allows. *)
Theorem videoIdBatches_partition (videoIds : list string) :
  List.concat (videoIdBatches videoIds) = videoIds
  /\ Forall (fun batch => (1 <= List.length batch <= 50)%nat)
       (videoIdBatches videoIds)
  /\ List.length (videoIdBatches videoIds)
     = ((List.length videoIds + 49) / 50)%nat.
Proof.
  split; [apply videoIdBatches_concat|]. split.
  - apply Forall_forall. intros batch H. unfold videoIdBatches in H. split.
    + exact (videoIdBatches_from_nonempty _ _ _ _ H).
    + exact (videoIdBatches_from_size _ _ _ _ H).
  - unfold videoIdBatches. rewrite videoIdBatches_from_length by lia.
    now rewrite Nat.sub_0_r.
Qed.

(** ** The membership loop *)

Lemma request_tokens_cons (pageToken : option string)
  (p q : PlaylistItemListResponse) (r : list PlaylistItemListResponse) :
  request_tokens pageToken (p :: q :: r)
  = pageToken :: request_tokens (nextPageToken p) (q :: r).
Proof. reflexivity. Qed.

Lemma fetchVideoIds_sound (fuel : nat) (playlistId : string) :
  forall videoIds pageToken result calls,
    fetchVideoIds fuel playlistId videoIds pageToken
    = Some (Normal result, calls) ->
    exists pages,
      token_chain playlistId pageToken pages
      /\ (List.length pages <= fuel)%nat
      /\ result = (videoIds ++ flat_map currentVideoIds pages)%list
      /\ calls
         = map (CallPlaylistItems playlistId) (request_tokens pageToken pages).
Proof.
  induction fuel as [|fuel IH]; intros videoIds pageToken result calls;
    cbn [fetchVideoIds]; [discriminate|].
  destruct (playlistItems_list youtube playlistId pageToken)
    as [page|e] eqn:Hpage; [|discriminate].
  destruct (truthy_opt (nextPageToken page)) eqn:Htoken.
  - destruct (fetchVideoIds fuel playlistId _ (nextPageToken page))
      as [[r calls']|] eqn:Hrec; [|discriminate].
    intros [= -> <-].
    destruct (IH _ _ _ _ Hrec) as (pages & Hchain & Hlen & -> & ->).
    destruct pages as [|q pages]; [destruct Hchain|].
    exists (page :: q :: pages).
    split; [exact (conj Hpage (conj Htoken Hchain))|].
    split; [cbn [List.length] in *; lia|].
    split; [cbn [flat_map]; now rewrite <- app_assoc|reflexivity].
  - intros [= <- <-]. exists [page].
    split; [exact (conj Hpage Htoken)|].
    split; [cbn [List.length]; lia|].
    split; [cbn [flat_map]; now rewrite app_nil_r|reflexivity].
Qed.

Lemma fetchVideoIds_complete (playlistId : string) :
  forall pages fuel videoIds pageToken,
    token_chain playlistId pageToken pages ->
    (List.length pages <= fuel)%nat ->
    fetchVideoIds fuel playlistId videoIds pageToken
    = Some (Normal (videoIds ++ flat_map currentVideoIds pages)%list,
            map (CallPlaylistItems playlistId)
              (request_tokens pageToken pages)).
Proof.
  induction pages as [|page pages IH]; intros fuel videoIds pageToken;
    [intros []|].
  intros [Hpage Hrest] Hlen.
  destruct fuel as [|fuel]; [cbn [List.length] in Hlen; lia|].
  cbn [fetchVideoIds]. rewrite Hpage.
  destruct pages as [|q pages].
  - rewrite Hrest. cbn [flat_map]. now rewrite app_nil_r.
  - destruct Hrest as [Htoken Hchain]. rewrite Htoken.
    rewrite (IH fuel _ _ Hchain) by (cbn [List.length] in *; lia).
    rewrite request_tokens_cons. cbn [flat_map map].
    now rewrite <- app_assoc.
Qed.

(** The membership loop asks for the first page without token and for each
    further page with the continuation token of the page before, until a
    page carries none (or an empty one); it returns the identifiers of the
    pages in that order.  Conversely, when the collaborator's pages end
    after n pages, the loop ends after exactly n requests. *)
Theorem pagination_follows_tokens (playlistId : string) :
  (forall fuel videoIds pageToken result calls,
      fetchVideoIds fuel playlistId videoIds pageToken
      = Some (Normal result, calls) ->
      exists pages,
        token_chain playlistId pageToken pages
        /\ (List.length pages <= fuel)%nat
        /\ result = (videoIds ++ flat_map currentVideoIds pages)%list
        /\ calls
           = map (CallPlaylistItems playlistId)
               (request_tokens pageToken pages)
        /\ List.length calls = List.length pages)
  /\ (forall pages fuel videoIds pageToken,
         token_chain playlistId pageToken pages ->
         (List.length pages <= fuel)%nat ->
         fetchVideoIds fuel playlistId videoIds pageToken
         = Some (Normal (videoIds ++ flat_map currentVideoIds pages)%list,
                 map (CallPlaylistItems playlistId)
                   (request_tokens pageToken pages))).
Proof.
  split.
  - intros fuel videoIds pageToken result calls H.
    destruct (fetchVideoIds_sound _ _ _ _ _ _ H)
      as (pages & Hchain & Hlen & Hres & Hcalls).
    exists pages. repeat split; auto.
    rewrite Hcalls, length_map. unfold request_tokens.
    cbn [List.length]. rewrite length_map.
    destruct pages as [|p ps]; [destruct Hchain|].
    clear. revert p. induction ps as [|q ps IH]; intros p; [reflexivity|].
    cbn [removelast List.length] in *. now rewrite (IH q).
  - exact (fetchVideoIds_complete playlistId).
Qed.

(** ** The handler, continued *)

Lemma handleError_ErrorBody (e : Exn) :
  exists msg, body (handleError e) = ErrorBody msg.
Proof.
  unfold handleError.
  destruct (exn_response e) as [response|]; [|eexists; reflexivity].
  destruct (resp_data_error response) as [ytError|]; [|eexists; reflexivity].
  destruct (api_errors ytError) as [|first rest]; [eexists; reflexivity|].
  repeat match goal with
         | |- context [if ?b then _ else _] => destruct b
         end; eexists; reflexivity.
Qed.

(** [afterDetails] in one piece: the early return for an empty playlist
    is the general answer at zero items. *)
Lemma afterDetails_eq (fuel : nat) (playlistId : string)
  (details : PlaylistDetails) :
  afterDetails fuel playlistId details
  = match fetchVideoIds fuel playlistId [] None with
    | None => None
    | Some (Throw e, calls) => Some (Throw e, calls)
    | Some (Normal videoIds, calls) =>
        let itemCount := Z.of_nat (List.length videoIds) in
        Some
          (match Promise_all
                   (map (videos_list youtube) (videoIdBatches videoIds)) with
           | Throw e => Throw e
           | Normal responses =>
               let total := sumZ (map ItemDuration (allItems responses)) in
               Normal (json (SummaryBody details itemCount
                               (formatDuration (inject_Z total))
                               (formatDuration (averageOf total itemCount))
                               total))
           end,
           (calls ++ map CallVideos (videoIdBatches videoIds))%list)
    end.
Proof.
  unfold afterDetails.
  destruct (fetchVideoIds fuel playlistId [] None)
    as [[[videoIds|e] calls]|]; try reflexivity.
  destruct (Z.of_nat (List.length videoIds) =? 0)%Z eqn:Hzero.
  - apply length_zero_nil in Hzero. subst videoIds.
    cbv zeta. rewrite videoIdBatches_nil. cbn [map Promise_all].
    now rewrite app_nil_r.
  - cbv zeta. destruct (Promise_all _) as [responses|e]; [|reflexivity].
    now rewrite deriveStatistics_eq.
Qed.

Lemma withPlaylistId_continue (fuel : nat) (playlistId : string) :
  (forall e, playlists_list youtube playlistId = Throw e ->
             firstReason e <> Some "playlistNotFound") ->
  exists details,
    withPlaylistId fuel playlistId
    = prepend (CallPlaylists playlistId)
        (afterDetails fuel playlistId details).
Proof.
  intros Hmeta. unfold withPlaylistId.
  destruct (playlists_list youtube playlistId) as [r|e]; [eauto|].
  specialize (Hmeta e eq_refl). apply hasReason_neq in Hmeta.
  rewrite Hmeta. eauto.
Qed.


Lemma POST_inv (fuel : nat) (apiKey : option string)
  (req_json : completion JsValue) (response : Response) (calls : list Call) :
  POST fuel apiKey req_json = Some (response, calls) ->
  (calls = [] /\ exists msg, body response = ErrorBody msg)
  \/ exists url id,
       req_json = Normal (JsString url)
       /\ extractPlaylistId url = Normal (Some id)
       /\ respond (withPlaylistId fuel id) = Some (response, calls).
Proof.
  unfold POST. destruct (negb (truthy_opt apiKey)).
  { intros [= <- <-]. left. split; [reflexivity|]. simpl. eauto. }
  unfold POST_try.
  destruct req_json as [[|url|]|e];
    try (intros [= <- <-]; left; split; [reflexivity|]; simpl; eauto;
         apply handleError_ErrorBody).
  destruct (truthy url);
    [|intros [= <- <-]; left; split; [reflexivity|]; simpl; eauto].
  destruct (extractPlaylistId url) as [[id|]|e] eqn:Hid;
    try (intros [= <- <-]; left; split; [reflexivity|]; simpl; eauto;
         apply handleError_ErrorBody).
  destruct (truthy id);
    [|intros [= <- <-]; left; split; [reflexivity|]; simpl; eauto].
  intros H. right. exists url, id. auto.
Qed.

Lemma withPlaylistId_inv (fuel : nat) (playlistId : string)
  (response : Response) (calls : list Call) :
  respond (withPlaylistId fuel playlistId) = Some (response, calls) ->
  (response = notFoundResponse /\ calls = [CallPlaylists playlistId])
  \/ exists details calls',
       respond (afterDetails fuel playlistId details) = Some (response, calls')
       /\ calls = CallPlaylists playlistId :: calls'.
Proof.
  unfold withPlaylistId.
  destruct (playlists_list youtube playlistId) as [r|e].
  - rewrite respond_prepend.
    destruct (respond (afterDetails fuel playlistId (detailsOf r)))
      as [[response' calls']|] eqn:H; [|discriminate].
    intros [= <- <-]. right. eauto.
  - destruct (hasReason (firstReason e) "playlistNotFound").
    + intros [= <- <-]. now left.
    + rewrite respond_prepend.
      destruct (respond (afterDetails fuel playlistId noDetails))
        as [[response' calls']|] eqn:H; [|discriminate].
      intros [= <- <-]. right. eauto.
Qed.

Lemma respond_inv (x : option (completion Response * list Call))
  (response : Response) (calls : list Call) :
  respond x = Some (response, calls) ->
  exists r,
    x = Some (r, calls)
    /\ (r = Normal response \/ exists e, r = Throw e /\ response = handleError e).
Proof.
  destruct x as [[[response'|e] calls']|]; simpl; [| |discriminate].
  - intros [= <- <-]. eexists. split; [reflexivity|]. now left.
  - intros [= <- <-]. eexists. split; [reflexivity|]. right.
    exists e. split; reflexivity.
Qed.

Lemma fetchVideoIds_calls_items (fuel : nat) (playlistId : string) :
  forall videoIds pageToken r calls,
    fetchVideoIds fuel playlistId videoIds pageToken = Some (r, calls) ->
    Forall (is_items_call playlistId) calls.
Proof.
  induction fuel as [|fuel IH]; intros videoIds pageToken r calls;
    cbn [fetchVideoIds]; [discriminate|].
  assert (Hcall : is_items_call playlistId
                    (CallPlaylistItems playlistId pageToken))
    by (now exists pageToken).
  destruct (playlistItems_list youtube playlistId pageToken) as [page|e];
    [|intros [= <- <-]; auto].
  destruct (truthy_opt (nextPageToken page)); [|intros [= <- <-]; auto].
  destruct (fetchVideoIds fuel playlistId _ (nextPageToken page))
    as [[r' calls']|] eqn:Hrec; [|discriminate].
  intros [= <- <-]. constructor; [assumption|]. exact (IH _ _ _ _ Hrec).
Qed.

Lemma batch_calls (videoIds : list string) :
  Forall is_batch_call (map CallVideos (videoIdBatches videoIds)).
Proof.
  apply Forall_forall. intros c Hc.
  apply in_map_iff in Hc as (batch & <- & Hin).
  exists batch. split; [reflexivity|]. unfold videoIdBatches in Hin. split.
  - exact (videoIdBatches_from_nonempty _ _ _ _ Hin).
  - exact (videoIdBatches_from_size _ _ _ _ Hin).
Qed.

Lemma afterDetails_calls (fuel : nat) (playlistId : string)
  (details : PlaylistDetails) (r : completion Response) (calls : list Call) :
  afterDetails fuel playlistId details = Some (r, calls) ->
  exists pcalls vcalls,
    calls = (pcalls ++ vcalls)%list
    /\ Forall (is_items_call playlistId) pcalls
    /\ Forall is_batch_call vcalls.
Proof.
  rewrite afterDetails_eq.
  destruct (fetchVideoIds fuel playlistId [] None)
    as [[[videoIds|e] calls0]|] eqn:Hfetch; [| |discriminate].
  - cbv zeta. intros [= _ <-].
    exists calls0, (map CallVideos (videoIdBatches videoIds)).
    split; [reflexivity|]. split; [|apply batch_calls].
    exact (fetchVideoIds_calls_items _ _ _ _ _ _ Hfetch).
  - intros [= _ <-]. exists calls0, []. rewrite app_nil_r.
    split; [reflexivity|]. split; [|constructor].
    exact (fetchVideoIds_calls_items _ _ _ _ _ _ Hfetch).
Qed.

(** The calls of a run come in a fixed order.  No call is made unless the
    request carries a URL with a valid [list] identifier; then the metadata
    lookup for that identifier comes first, the membership requests for it
    follow, and the duration lookups, each for 1 to 50 identifiers, come
    last. *)
Theorem POST_call_order (fuel : nat) (apiKey : option string)
  (req_json : completion JsValue) (response : Response) (calls : list Call) :
  POST fuel apiKey req_json = Some (response, calls) ->
  calls = []
  \/ exists url id pcalls vcalls,
       req_json = Normal (JsString url)
       /\ has_valid_list url id
       /\ calls = CallPlaylists id :: (pcalls ++ vcalls)%list
       /\ Forall (is_items_call id) pcalls
       /\ Forall is_batch_call vcalls.
Proof.
  intros H. destruct (POST_inv _ _ _ _ _ H) as [[-> _]|Hvalid]; [now left|].
  destruct Hvalid as (url & id & -> & Hid & Hrun). right.
  exists url, id. apply extractPlaylistId_Some in Hid.
  destruct (withPlaylistId_inv _ _ _ _ Hrun)
    as [[_ ->]|(details & calls' & Hafter & ->)].
  - exists [], []. repeat split; auto.
  - apply respond_inv in Hafter as (r & Hafter & _).
    destruct (afterDetails_calls _ _ _ _ _ Hafter)
      as (pcalls & vcalls & -> & Hp & Hv).
    exists pcalls, vcalls. repeat split; auto.
Qed.

(** Every summary the handler answers is consistent: its status is 200,
    the item count and the total are not negative, a count of zero comes
    with a total of zero, and the two formatted fields are the renderings
    of the total and of the average of the total over the count. *)
Theorem POST_summary_invariants (fuel : nat) (apiKey : option string)
  (req_json : completion JsValue) (response : Response) (calls : list Call)
  (details : PlaylistDetails) (videoCount : Z)
  (totalWatchTime averageDuration : string) (totalSeconds : Z) :
  POST fuel apiKey req_json = Some (response, calls) ->
  body response
  = SummaryBody details videoCount totalWatchTime averageDuration
      totalSeconds ->
  status response = 200
  /\ (0 <= videoCount)%Z
  /\ (0 <= totalSeconds)%Z
  /\ (videoCount = 0 -> totalSeconds = 0)%Z
  /\ totalWatchTime = formatDuration (inject_Z totalSeconds)
  /\ averageDuration = formatDuration (averageOf totalSeconds videoCount).
Proof.
  intros H Hbody.
  destruct (POST_inv _ _ _ _ _ H) as [[_ [msg Hmsg]]|Hvalid]; [congruence|].
  destruct Hvalid as (url & id & _ & _ & Hrun).
  destruct (withPlaylistId_inv _ _ _ _ Hrun)
    as [[-> _]|(details' & calls' & Hafter & _)]; [discriminate Hbody|].
  apply respond_inv in Hafter as (r & Hafter & Hr).
  destruct Hr as [->|(e & _ & ->)];
    [|destruct (handleError_ErrorBody e) as [msg Hmsg]; congruence].
  rewrite afterDetails_eq in Hafter.
  destruct (fetchVideoIds fuel id [] None)
    as [[[videoIds|e] calls0]|]; try discriminate Hafter.
  cbv zeta in Hafter.
  destruct (Promise_all _) as [responses|e] eqn:Hall; [|discriminate Hafter].
  injection Hafter as <- _. cbn [body json] in Hbody.
  injection Hbody as <- <- <- <- <-.
  split; [reflexivity|]. split; [lia|]. split; [apply total_nonneg|].
  split; [|split; reflexivity].
  intros Hzero. destruct videoIds as [|v videoIds];
    [|cbn [List.length] in Hzero; lia].
  rewrite videoIdBatches_nil in Hall. cbn in Hall.
  injection Hall as <-. reflexivity.
Qed.

(** ** The helpers of the page *)

Lemma Math_round_div (d : Z) (k : positive) :
  Math_round (inject_Z d / inject_Z (Zpos k))
  = ((2 * d + Zpos k) / (2 * Zpos k))%Z.
Proof.
  unfold Math_round, Qdiv, Qinv, Qmult, Qplus, Qfloor, inject_Z.
  cbn [Qnum Qden]. f_equal; lia.
Qed.

Lemma Math_round_nonneg (x : Q) : (0 <= x)%Q -> (0 <= Math_round x)%Z.
Proof.
  intros H. unfold Math_round. apply Qfloor_nonneg.
  apply Qle_trans with x; [assumption|].
  rewrite <- (Qplus_0_r x) at 1. apply Qplus_le_r. discriminate.
Qed.

Lemma hours_of_seconds (n : Z) :
  Qfloor (inject_Z n / inject_Z 3600) = (n / 3600)%Z.
Proof.
  now rewrite Qfloor_div_pos, Qfloor_Z.
Qed.

Ltac euclid n k :=
  pose proof (Z_div_mod_eq_full n k);
  pose proof (Z.mod_pos_bound n k ltac:(lia)).

(** The estimate of the page by whole seconds (of magnitude below 2^53):
    below an hour, below five hours, below a day, below two days; then a
    number of days that is always between 2 and 6, so always in the plural;
    then 1 to 4 weeks up to thirty days; then at least one month. *)
Theorem getTimeEstimate_buckets (n : Z) :
  (- 2 ^ 53 < n)%Z -> below_2_53 n ->
  let estimate := getTimeEstimate (Some (inject_Z n)) in
  let days := (n / 86400)%Z in
  let weeks := ((2 * days + 7) / 14)%Z in
  let months := ((days + 15) / 30)%Z in
  ((n < 3600)%Z -> estimate = "Less than an hour")
  /\ ((3600 <= n < 18000)%Z -> estimate = "A few hours")
  /\ ((18000 <= n < 86400)%Z -> estimate = "Less than a day")
  /\ ((86400 <= n < 172800)%Z -> estimate = "About a day")
  /\ ((172800 <= n < 604800)%Z ->
      (2 <= days <= 6)%Z
      /\ estimate = "About " ++ String_of_Z days ++ " days")
  /\ ((604800 <= n < 2592000)%Z ->
      (1 <= weeks <= 4)%Z
      /\ estimate
         = "About " ++ String_of_Z weeks
           ++ (if (weeks =? 1)%Z then " week" else " weeks"))
  /\ ((2592000 <= n)%Z ->
      (1 <= months)%Z
      /\ estimate
         = "About " ++ String_of_Z months
           ++ (if (months =? 1)%Z then " month" else " months")).
Proof.
  intros _ _. cbv zeta. unfold getTimeEstimate.
  rewrite hours_of_seconds, !Math_round_div.
  assert (Hd : (n / 86400 = n / 3600 / 24)%Z).
  { rewrite Z.div_div by lia. reflexivity. }
  rewrite Hd. clear Hd.
  set (h := (n / 3600)%Z). set (d := (h / 24)%Z).
  assert (Hw : ((2 * d + 7) / (2 * 7) = (2 * d + 7) / 14)%Z) by reflexivity.
  assert (Hm : ((2 * d + 30) / (2 * 30) = (d + 15) / 30)%Z).
  { replace (2 * d + 30)%Z with ((d + 15) * 2)%Z by lia.
    change (2 * 30)%Z with (30 * 2)%Z.
    rewrite Z.div_mul_cancel_r by lia. reflexivity. }
  rewrite Hw, Hm. clear Hw Hm.
  set (a := (2 * d + 7)%Z) in *. set (b := (d + 15)%Z) in *.
  euclid n 3600%Z. euclid h 24%Z. euclid a 14%Z. euclid b 30%Z.
  subst a b.
  fold h in H, H0. fold d in H1, H2.
  set (w := ((2 * d + 7) / 14)%Z) in *. set (m := ((d + 15) / 30)%Z) in *.
  repeat apply conj; intros Hn;
    try (split; [lia|]);
    repeat match goal with
           | |- context [(?x <? ?y)%Z] =>
               destruct (Z.ltb_spec x y); try lia
           | |- context [(?x =? ?y)%Z] =>
               destruct (Z.eqb_spec x y); try lia
           end;
    reflexivity.
Qed.

Lemma clock_is_formatDuration (n : Z) :
  (0 <= n)%Z -> clock n = formatDuration (inject_Z n).
Proof.
  intros Hn.
  rewrite formatDuration_of_floor by (now apply inject_Z_nonneg).
  rewrite Qfloor_Z. symmetry. now apply assemble_clock.
Qed.

Lemma adjusted_clock (a : Z) :
  (0 <= a)%Z ->
  (let hours := (a / 3600)%Z in
   let minutes := (Z.rem a 3600 / 60)%Z in
   let remainingSeconds := Z.rem a 60 in
   if (0 <? hours)%Z then
     String_of_Z hours ++ ":"
     ++ padStart (String_of_Z minutes) 2 "0" ++ ":"
     ++ padStart (String_of_Z remainingSeconds) 2 "0"
   else
     String_of_Z minutes ++ ":"
     ++ padStart (String_of_Z remainingSeconds) 2 "0")
  = clock a.
Proof.
  intros Ha. cbv zeta. unfold clock.
  rewrite !Z.rem_mod_nonneg by lia.
  assert (Hm : (0 <= a mod 3600 / 60 < 60)%Z).
  { pose proof (Z.mod_pos_bound a 3600 ltac:(lia)).
    split; [apply Z.div_pos; lia | apply Z.div_lt_upper_bound; lia]. }
  assert (Hs : (0 <= a mod 60 < 60)%Z) by (apply Z.mod_pos_bound; lia).
  rewrite (padStart_two_digits _ Hs).
  destruct (0 <? a / 3600)%Z; [|reflexivity].
  now rewrite (padStart_two_digits _ Hm).
Qed.

Lemma playbackSpeeds_positive (speed : Q) :
  In speed playbackSpeeds -> (0 < speed)%Q.
Proof.
  intros [<-|[<-|[<-|[<-|[]]]]]; reflexivity.
Qed.

(** The page's rendering at a playback speed: for whole seconds from 0 to
    below 2^32 and a speed of the page (1.25, 1.5, 1.75 or 2) it is the
    clock string of the quotient rounded to the nearest second, which the
    route's formatter renders the same way; at speed 1 it is the route's
    rendering of the seconds themselves.  Without a number of seconds it is
    "N/A". *)
Theorem calculateAdjustedTime_clock :
  (forall (n : Z) (speed : Q),
      (0 <= n < 2 ^ 32)%Z -> In speed playbackSpeeds ->
      calculateAdjustedTime (Some (inject_Z n)) speed
      = clock (Math_round (inject_Z n / speed))
      /\ calculateAdjustedTime (Some (inject_Z n)) speed
         = formatDuration (inject_Z (Math_round (inject_Z n / speed))))
  /\ (forall n : Z,
         (0 <= n)%Z -> below_2_53 n ->
         calculateAdjustedTime (Some (inject_Z n)) 1
         = formatDuration (inject_Z n))
  /\ (forall speed : Q, calculateAdjustedTime None speed = "N/A").
Proof.
  assert (Hmain : forall seconds speed : Q,
             (0 <= seconds)%Q -> (0 < speed)%Q ->
             calculateAdjustedTime (Some seconds) speed
             = clock (Math_round (seconds / speed))
               /\ (0 <= Math_round (seconds / speed))%Z).
  { intros seconds speed Hs Hv. unfold calculateAdjustedTime.
    assert (Hne : Qeq_bool speed 0 = false).
    { destruct (Qeq_bool speed 0) eqn:He; [|reflexivity].
      apply Qeq_bool_iff in He. rewrite He in Hv.
      now apply Qlt_irrefl in Hv. }
    rewrite Hne.
    assert (Ha : (0 <= Math_round (seconds / speed))%Z).
    { apply Math_round_nonneg. apply Qle_shift_div_l; [assumption|].
      now rewrite Qmult_0_l. }
    split; [|assumption]. now apply adjusted_clock. }
  split; [|split].
  - intros n speed [Hn _] Hspeed.
    destruct (Hmain (inject_Z n) speed (inject_Z_nonneg n Hn)
                (playbackSpeeds_positive speed Hspeed)) as [Hc Ha].
    split; [assumption|]. rewrite Hc. now apply clock_is_formatDuration.
  - intros n Hn _.
    destruct (Hmain (inject_Z n) 1%Q (inject_Z_nonneg n Hn) eq_refl)
      as [Hc Ha].
    rewrite Hc.
    assert (Hr : Math_round (inject_Z n / 1) = n).
    { change 1%Q with (inject_Z 1). rewrite Math_round_div.
      symmetry. apply (Z.div_unique _ _ _ 1); lia. }
    rewrite Hr. now apply clock_is_formatDuration.
  - reflexivity.
Qed.

(** ** Reading the formatter's output back *)

Lemma is_digit_not_colon (c : ascii) : is_digit c = true -> not_colon c = true.
Proof.
  destruct c as [[|] [|] [|] [|] [|] [|] [|] [|]]; (discriminate || reflexivity).
Qed.

Lemma split_all_no_colon (s : string) :
  string_forallb not_colon s = true -> split_all ":" s = [s].
Proof.
  induction s as [|c s IH]; [reflexivity|].
  cbn [string_forallb split_all]. rewrite andb_true_iff. intros [Hc Hs].
  unfold not_colon in Hc. apply negb_true_iff in Hc. rewrite Hc.
  now rewrite (IH Hs).
Qed.

Lemma split_all_field (s rest : string) :
  string_forallb not_colon s = true ->
  split_all ":" (s ++ String ":" rest) = s :: split_all ":" rest.
Proof.
  induction s as [|c s IH]; [reflexivity|].
  cbn [string_forallb append split_all]. rewrite andb_true_iff.
  intros [Hc Hs]. unfold not_colon in Hc. apply negb_true_iff in Hc.
  rewrite Hc. now rewrite (IH Hs).
Qed.

(** [String(n)] of a non-negative integer is its decimal numeral. *)
Lemma String_of_Z_numeral (n : Z) :
  (0 <= n)%Z ->
  exists d, String_of_Z n = numeral d /\ Z.of_N (N.of_uint d) = n.
Proof.
  intros Hn. destruct n as [|p|p]; [| |lia].
  - exists (Decimal.D0 Decimal.Nil). split; reflexivity.
  - exists (Pos.to_uint p). split.
    + unfold String_of_Z. cbn [Z.to_int NilZero.string_of_int].
      unfold NilZero.string_of_uint.
      pose proof (DecimalPos.Unsigned.to_uint_nonnil p) as Hnil.
      destruct (Pos.to_uint p); [contradiction|..]; reflexivity.
    + unfold N.of_uint. now rewrite DecimalPos.Unsigned.of_to.
Qed.

Lemma String_of_Z_digits (n : Z) :
  (0 <= n)%Z -> string_forallb is_digit (String_of_Z n) = true.
Proof.
  intros Hn. destruct (String_of_Z_numeral n Hn) as (d & -> & _).
  apply numeral_digits.
Qed.

Lemma parseInt10_String_of_Z (n : Z) :
  (0 <= n)%Z -> parseInt10 (String_of_Z n) = n.
Proof.
  intros Hn. destruct (String_of_Z_numeral n Hn) as (d & -> & <-).
  apply parseInt10_numeral.
Qed.

Lemma two_digits_back (k : Z) :
  (0 <= k < 60)%Z ->
  string_forallb not_colon (two_digits k) = true
  /\ parseInt10 (two_digits k) = k.
Proof.
  intros H. destruct (small_as_nat k H) as (j & Hj & ->). clear H.
  do 60 (destruct j as [|j]; [split; reflexivity|]). lia.
Qed.

Lemma clock_seconds_clock (n : Z) :
  (0 <= n)%Z -> clock_seconds (clock n) = Some n.
Proof.
  intros Hn. unfold clock, clock_seconds.
  assert (Hm : (0 <= n mod 3600 / 60 < 60)%Z).
  { pose proof (Z.mod_pos_bound n 3600 ltac:(lia)).
    split; [apply Z.div_pos; lia | apply Z.div_lt_upper_bound; lia]. }
  assert (Hs : (0 <= n mod 60 < 60)%Z) by (apply Z.mod_pos_bound; lia).
  assert (Hh : (0 <= n / 3600)%Z) by (apply Z.div_pos; lia).
  destruct (two_digits_back _ Hm) as [Hm1 Hm2].
  destruct (two_digits_back _ Hs) as [Hs1 Hs2].
  assert (Hcolon : forall x, (0 <= x)%Z ->
                     string_forallb not_colon (String_of_Z x) = true).
  { intros x Hx. apply (string_forallb_impl is_digit);
      [exact is_digit_not_colon|now apply String_of_Z_digits]. }
  pose proof (Z_div_mod_eq_full n 3600) as E1.
  pose proof (Z_div_mod_eq_full (n mod 3600) 60) as E2.
  assert (E3 : ((n mod 3600) mod 60 = n mod 60)%Z).
  { symmetry. rewrite E1 at 1.
    replace (3600 * (n / 3600) + n mod 3600)%Z
      with (n mod 3600 + (60 * (n / 3600)) * 60)%Z by lia.
    apply Z.mod_add. lia. }
  destruct (Z.ltb_spec 0 (n / 3600)) as [Hpos|Hzero].
  - change (String_of_Z (n / 3600) ++ ":" ++ two_digits (n mod 3600 / 60)
            ++ ":" ++ two_digits (n mod 60))
      with (String_of_Z (n / 3600)
            ++ String ":" (two_digits (n mod 3600 / 60)
                           ++ String ":" (two_digits (n mod 60)))).
    rewrite split_all_field by (now apply Hcolon).
    rewrite split_all_field by assumption.
    rewrite split_all_no_colon by assumption.
    rewrite parseInt10_String_of_Z by assumption.
    rewrite Hm2, Hs2. f_equal. lia.
  - change (String_of_Z (n mod 3600 / 60) ++ ":" ++ two_digits (n mod 60))
      with (String_of_Z (n mod 3600 / 60)
            ++ String ":" (two_digits (n mod 60))).
    rewrite split_all_field by (apply Hcolon; lia).
    rewrite split_all_no_colon by assumption.
    rewrite parseInt10_String_of_Z by lia.
    rewrite Hs2. f_equal. lia.
Qed.

(** The formatter loses nothing on whole seconds below 2^53: reading the
    fields of its output back gives the number of seconds it was given, so
    two different totals are never rendered alike. *)
Theorem formatDuration_round_trip :
  (forall n : Z,
      (0 <= n)%Z -> below_2_53 n ->
      clock_seconds (formatDuration (inject_Z n)) = Some n)
  /\ (forall n m : Z,
         (0 <= n)%Z -> below_2_53 n -> (0 <= m)%Z -> below_2_53 m ->
         formatDuration (inject_Z n) = formatDuration (inject_Z m) -> n = m).
Proof.
  assert (Hback : forall n : Z,
             (0 <= n)%Z ->
             clock_seconds (formatDuration (inject_Z n)) = Some n).
  { intros n Hn. rewrite <- clock_is_formatDuration by assumption.
    now apply clock_seconds_clock. }
  split; [intros n Hn _; now apply Hback|].
  intros n m Hn _ Hm _ Heq.
  pose proof (Hback n Hn) as H1. pose proof (Hback m Hm) as H2.
  rewrite Heq in H1. congruence.
Qed.

(** The parser never returns a negative number of seconds. *)
Theorem parse_never_negative (durationString : string) :
  exists n : Z,
    parseISO8601Duration durationString = Normal n /\ (0 <= n)%Z.
Proof.
  destruct (parse_normal durationString) as [n Hn].
  exists n. split; [assumption|]. exact (parse_nonneg _ _ Hn).
Qed.

Lemma filter_no_videos (calls : list Call) :
  forallb (fun c => negb (is_CallVideos c)) calls = true ->
  filter is_CallVideos calls = [].
Proof.
  induction calls as [|c calls IH]; [reflexivity|].
  cbn [forallb filter]. rewrite andb_true_iff. intros [Hc Hcalls].
  apply negb_true_iff in Hc. rewrite Hc. auto.
Qed.

Lemma filter_all_videos (batches : list (list string)) :
  filter is_CallVideos (map CallVideos batches) = map CallVideos batches.
Proof.
  induction batches as [|b batches IH]; [reflexivity|].
  cbn [map filter is_CallVideos]. now rewrite IH.
Qed.

(** A run that answers a summary for n items has made exactly the
    duration lookups n items need at 50 a lookup: n/50 rounded up, and
    none for an empty playlist. *)
Theorem POST_lookup_count (fuel : nat) (apiKey : option string)
  (req_json : completion JsValue) (response : Response) (calls : list Call)
  (details : PlaylistDetails) (videoCount : Z)
  (totalWatchTime averageDuration : string) (totalSeconds : Z) :
  POST fuel apiKey req_json = Some (response, calls) ->
  body response
  = SummaryBody details videoCount totalWatchTime averageDuration
      totalSeconds ->
  Z.of_nat (List.length (filter is_CallVideos calls))
  = ((videoCount + 49) / 50)%Z.
Proof.
  intros H Hbody.
  destruct (POST_inv _ _ _ _ _ H) as [[_ [msg Hmsg]]|Hvalid]; [congruence|].
  destruct Hvalid as (url & id & _ & _ & Hrun).
  destruct (withPlaylistId_inv _ _ _ _ Hrun)
    as [[-> _]|(details' & calls' & Hafter & ->)]; [discriminate Hbody|].
  apply respond_inv in Hafter as (r & Hafter & Hr).
  destruct Hr as [->|(e & _ & ->)];
    [|destruct (handleError_ErrorBody e) as [msg Hmsg]; congruence].
  rewrite afterDetails_eq in Hafter.
  destruct (fetchVideoIds fuel id [] None)
    as [[[videoIds|e] calls0]|] eqn:Hfetch; try discriminate Hafter.
  cbv zeta in Hafter.
  destruct (Promise_all _) as [responses|e]; [|discriminate Hafter].
  injection Hafter as <- <-. cbn [body json] in Hbody.
  injection Hbody as _ <- _ _ _.
  cbn [filter is_CallVideos]. rewrite filter_app.
  rewrite (filter_no_videos calls0)
    by exact (fetchVideoIds_calls _ _ _ _ _ _ Hfetch).
  rewrite filter_all_videos. cbn [app]. rewrite length_map.
  unfold videoIdBatches. rewrite videoIdBatches_from_length by lia.
  rewrite Nat.sub_0_r, Nat2Z.inj_div, Nat2Z.inj_add. reflexivity.
Qed.

(** ** Whole runs *)

Lemma Promise_all_answered (batches : list (list string)) :
  (forall batch, In batch batches ->
                 exists response, videos_list youtube batch = Normal response) ->
  exists responses,
    Promise_all (map (videos_list youtube) batches) = Normal responses
    /\ allItems responses = flat_map batchItems batches.
Proof.
  induction batches as [|batch batches IH]; intros Hall.
  - exists []. split; reflexivity.
  - destruct (Hall batch (or_introl eq_refl)) as [response Hbatch].
    destruct IH as (responses & Hrest & Hitems).
    { intros b Hb. apply Hall. now right. }
    exists (response :: responses). split.
    + cbn [map Promise_all]. rewrite Hbatch, Hrest. reflexivity.
    + cbn [flat_map]. unfold allItems in *. cbn [flat_map].
      rewrite Hitems. unfold batchItems at 2. now rewrite Hbatch.
Qed.

Lemma Promise_all_rejected (batches : list (list string)) :
  (exists batch e, In batch batches /\ videos_list youtube batch = Throw e) ->
  exists batch e,
    In batch batches
    /\ videos_list youtube batch = Throw e
    /\ Promise_all (map (videos_list youtube) batches) = Throw e.
Proof.
  induction batches as [|batch batches IH]; intros (b & e & Hin & Hb).
  - destruct Hin.
  - cbn [map Promise_all].
    destruct (videos_list youtube batch) as [response|e'] eqn:Hbatch.
    + destruct Hin as [<-|Hin]; [congruence|].
      destruct IH as (b' & e' & Hin' & Hb' & Hall); [now exists b, e|].
      exists b', e'. split; [now right|]. split; [assumption|].
      cbn [bind]. now rewrite Hall.
    + exists batch, e'. split; [now left|]. split; [assumption|reflexivity].
Qed.

(** A run over a finite chain of pages, with enough iterations allowed and
    every duration lookup answered, ends with the summary of the
    identifiers of those pages. *)
Lemma run_summary (fuel : nat) (playlistId : string)
  (details : PlaylistDetails) (pages : list PlaylistItemListResponse) :
  token_chain playlistId None pages ->
  (List.length pages <= fuel)%nat ->
  lookups_answered (flat_map currentVideoIds pages) ->
  afterDetails fuel playlistId details
  = Some (Normal
            (json (SummaryBody details
                     (Z.of_nat (List.length (flat_map currentVideoIds pages)))
                     (formatDuration
                        (inject_Z (runTotal (flat_map currentVideoIds pages))))
                     (formatDuration
                        (averageOf
                           (runTotal (flat_map currentVideoIds pages))
                           (Z.of_nat
                              (List.length (flat_map currentVideoIds pages)))))
                     (runTotal (flat_map currentVideoIds pages)))),
          (map (CallPlaylistItems playlistId) (request_tokens None pages)
           ++ map CallVideos
                (videoIdBatches (flat_map currentVideoIds pages)))%list).
Proof.
  intros Hchain Hfuel Hall. rewrite afterDetails_eq.
  rewrite (fetchVideoIds_complete playlistId pages fuel [] None Hchain Hfuel).
  cbn [app]. cbv zeta.
  destruct (Promise_all_answered _ Hall) as (responses & -> & Hitems).
  unfold runTotal. now rewrite Hitems.
Qed.

(** C1: the statistics of a run.  The total is the sum of the parsed
    durations of all returned items, an item without duration counting for
    zero, and the average is the total divided by the item count when that
    is positive and 0 otherwise.  In a run over the pages of a playlist in
    which every duration lookup is answered, every identifier is looked up
    (the batches are the identifier list, cut in order) and the response
    reports the number of identifiers, the total over the answers to all
    the batches, and both values rendered by the formatter.  Totals are
    below 2^53. *)
Theorem statistics_invariant :
  (forall videoCount responses,
      below_2_53 (sumZ (map ItemDuration (allItems responses))) ->
      exists st,
        deriveStatistics videoCount responses = Normal st
        /\ stat_totalSeconds st = sumZ (map ItemDuration (allItems responses))
        /\ ((0 < videoCount)%Z ->
            stat_averageSeconds st
            = (inject_Z (stat_totalSeconds st) / inject_Z videoCount)%Q)
        /\ ((videoCount <= 0)%Z -> stat_averageSeconds st = 0%Q))
  /\ (forall item, duration item = None -> ItemDuration item = 0)
  /\ (forall fuel playlistId details pages,
         token_chain playlistId None pages ->
         (List.length pages <= fuel)%nat ->
         let videoIds := flat_map currentVideoIds pages in
         lookups_answered videoIds ->
         below_2_53 (runTotal videoIds) ->
         let itemCount := Z.of_nat (List.length videoIds) in
         let total := runTotal videoIds in
         List.concat (videoIdBatches videoIds) = videoIds
         /\ afterDetails fuel playlistId details
            = Some (Normal (json (SummaryBody details itemCount
                                    (formatDuration (inject_Z total))
                                    (formatDuration (averageOf total itemCount))
                                    total)),
                    (map (CallPlaylistItems playlistId)
                       (request_tokens None pages)
                     ++ map CallVideos (videoIdBatches videoIds))%list)).
Proof.
  split; [|split].
  - intros videoCount responses _. rewrite deriveStatistics_eq.
    eexists. split; [reflexivity|]. cbn [stat_totalSeconds stat_averageSeconds].
    split; [reflexivity|]. unfold averageOf. split; intros H.
    + destruct (Z.ltb_spec 0 videoCount); [reflexivity|lia].
    + destruct (Z.ltb_spec 0 videoCount); [lia|reflexivity].
  - intros item H. unfold ItemDuration. now rewrite H.
  - intros fuel playlistId details pages Hchain Hfuel videoIds Hall _.
    cbv zeta. split; [apply videoIdBatches_concat|].
    now apply run_summary.
Qed.

(** C10: of a membership page only the entries carrying a non-empty video
    identifier are appended, in order; the others are skipped.  A run over
    a finite chain of pages, with every duration lookup answered, reports
    as item count the number of identifier-bearing entries of those pages,
    which is at most, and can be less than, the number of entries
    returned. *)
Theorem membership_skips_missing_ids :
  (forall page,
      map Some (currentVideoIds page)
      = map videoId (filter bears_identifier (entries page))
      /\ (List.length (currentVideoIds page) <= List.length (entries page))%nat)
  /\ (forall fuel playlistId details pages,
         token_chain playlistId None pages ->
         (List.length pages <= fuel)%nat ->
         lookups_answered (flat_map currentVideoIds pages) ->
         let itemCount :=
           Z.of_nat
             (List.length (filter bears_identifier (flat_map entries pages))) in
         (exists tw ad ts calls,
             afterDetails fuel playlistId details
             = Some (Normal (json (SummaryBody details itemCount tw ad ts)),
                     calls))
         /\ (itemCount <= Z.of_nat (List.length (flat_map entries pages)))%Z)
  /\ (exists page,
         (List.length (currentVideoIds page) < List.length (entries page))%nat).
Proof.
  split; [|split].
  - intros page. split; [apply currentVideoIds_bearing|].
    rewrite currentVideoIds_length. apply filter_length_le.
  - intros fuel playlistId details pages Hchain Hfuel Hall. cbv zeta. split.
    + rewrite <- flat_map_currentVideoIds_length.
      do 4 eexists. now apply run_summary.
    + apply Nat2Z.inj_le, filter_length_le.
  - exists (mkPlaylistItemListResponse
              (Some [mkPlaylistItem None; mkPlaylistItem (Some "");
                     mkPlaylistItem (Some "c")]) None).
    simpl. lia.
Qed.

(** A failure of a membership request or of a duration lookup ends the
    run with the answer of the error handler: no summary is built from the
    pages or batches that did succeed.  When duration lookups fail, all
    batches had been requested, and the answer is the handler's answer to
    the failure of one of the failed lookups. *)
Theorem lookup_failures_are_fatal (fuel : nat) (apiKey : option string)
  (url id : string) :
  truthy_opt apiKey = true ->
  truthy url = true ->
  extractPlaylistId url = Normal (Some id) ->
  (forall e, playlists_list youtube id = Throw e ->
             firstReason e <> Some "playlistNotFound") ->
  (forall e calls,
      fetchVideoIds fuel id [] None = Some (Throw e, calls) ->
      POST fuel apiKey (Normal (JsString url))
      = Some (handleError e, CallPlaylists id :: calls)
      /\ forallb (fun c => negb (is_CallVideos c)) calls = true)
  /\ (forall videoIds calls,
         fetchVideoIds fuel id [] None = Some (Normal videoIds, calls) ->
         (exists batch e,
             In batch (videoIdBatches videoIds)
             /\ videos_list youtube batch = Throw e) ->
         exists batch e,
           In batch (videoIdBatches videoIds)
           /\ videos_list youtube batch = Throw e
           /\ POST fuel apiKey (Normal (JsString url))
              = Some (handleError e,
                      CallPlaylists id
                      :: (calls
                          ++ map CallVideos (videoIdBatches videoIds))%list)).
Proof.
  intros Hkey Hurl Hid Hmeta.
  rewrite (POST_valid _ _ _ _ Hkey Hurl Hid).
  destruct (withPlaylistId_continue fuel id Hmeta) as [details ->].
  rewrite afterDetails_eq. split.
  - intros e calls Hfetch. rewrite Hfetch. split; [reflexivity|].
    exact (fetchVideoIds_calls _ _ _ _ _ _ Hfetch).
  - intros videoIds calls Hfetch Hfail. rewrite Hfetch. cbv zeta.
    destruct (Promise_all_rejected _ Hfail) as (batch & e & Hin & Hb & ->).
    exists batch, e. repeat split; assumption.
Qed.

End Route.

(** * The route on concrete requests *)

(** The route over the plain URL class and the rejecting fallback. *)
Lemma parse_valid_encoding_witness :
  parseISO8601Duration rejecting_parse "PT1H02M3S" = Normal 3723
  /\ parseISO8601Duration rejecting_parse "PT15M" = Normal 900.
Proof.
  split.
  - apply (parse_valid_encoding rejecting_parse
             (Some (Decimal.D1 Decimal.Nil))
             (Some (Decimal.D0 (Decimal.D2 Decimal.Nil)))
             (Some (Decimal.D3 Decimal.Nil)));
      first [discriminate | repeat split; reflexivity].
  - apply (parse_valid_encoding rejecting_parse None
             (Some (Decimal.D1 (Decimal.D5 Decimal.Nil))) None);
      first [discriminate | repeat split; reflexivity].
Defined.

Lemma parse_degrades_to_zero_witness :
  parseISO8601Duration rejecting_parse "" = Normal 0
  /\ parseISO8601Duration rejecting_parse "P1D" = Normal 0.
Proof.
  split.
  - apply (proj1 (parse_degrades_to_zero rejecting_parse)). left. reflexivity.
  - apply (proj1 (parse_degrades_to_zero rejecting_parse)). right.
    intros (pre & post & H).
    destruct pre as [|a [|b [|c [|d pre]]]]; simpl in H; discriminate H.
Defined.

Lemma formatDuration_clock_witness :
  formatDuration (inject_Z 45296) = "12:34:56".
Proof.
  apply (proj1 formatDuration_clock 45296); [lia|reflexivity].
Defined.

Lemma formatDuration_floors_witness :
  formatDuration (7 # 2) = formatDuration (inject_Z 3)
  /\ formatDuration (averageOf 100 3) = "0:33".
Proof.
  split.
  - apply (proj1 formatDuration_floors (7 # 2)). discriminate.
  - apply (proj2 formatDuration_floors 100 3); first [lia | reflexivity].
Defined.

Lemma extractPlaylistId_spec_witness :
  extractPlaylistId string plain_URL_new plain_searchParams_get
    "https://x/playlist?list=PL123_abc" = Normal (Some "PL123_abc")
  /\ extractPlaylistId string plain_URL_new plain_searchParams_get
       "https://x/playlist?v=abc" = Normal None
  /\ extractPlaylistId string plain_URL_new plain_searchParams_get
       "https://x/playlist?list=PL!23" = Normal None.
Proof.
  pose proof (extractPlaylistId_spec string plain_URL_new
                plain_searchParams_get) as (_ & _ & Hgood & Hmissing & Hbang).
  split; [|split].
  - apply (Hgood _ "list=PL123_abc"); reflexivity.
  - apply (Hmissing _ "v=abc"); reflexivity.
  - apply (Hbang _ "list=PL!23" "PL!23"); try reflexivity.
    simpl. tauto.
Defined.

Lemma statistics_invariant_witness :
  List.concat (videoIdBatches ["a"; "b"; "c"]) = ["a"; "b"; "c"]
  /\ afterDetails rejecting_parse threeVideosClient 5 "PL123_abc" noDetails
     = Some (Normal (json (SummaryBody noDetails 3 "1:02:00" "20:40" 3720)),
             [CallPlaylistItems "PL123_abc" None;
              CallPlaylistItems "PL123_abc" (Some "p2");
              CallVideos ["a"; "b"; "c"]]).
Proof.
  apply (proj2 (proj2 (statistics_invariant rejecting_parse threeVideosClient))
           5%nat "PL123_abc" noDetails threeVideosPages).
  - simpl. repeat split; reflexivity.
  - simpl. lia.
  - intros batch _. eexists. reflexivity.
  - reflexivity.
Defined.

Lemma membership_skips_missing_ids_witness :
  (exists tw ad ts calls,
      afterDetails rejecting_parse threeVideosClient 5 "PL123_abc" noDetails
      = Some (Normal (json (SummaryBody noDetails 3 tw ad ts)), calls))
  /\ (3 <= 4)%Z.
Proof.
  apply (proj1 (proj2 (membership_skips_missing_ids rejecting_parse
                         threeVideosClient))
           5%nat "PL123_abc" noDetails threeVideosPages).
  - simpl. repeat split; reflexivity.
  - simpl. lia.
  - intros batch _. eexists. reflexivity.
Defined.

Lemma empty_playlist_response_witness :
  exists details,
    POST rejecting_parse string plain_URL_new plain_searchParams_get
      emptyClient 5 (Some "key") sampleRequest
    = Some (json (SummaryBody details 0 "0:00" "0:00" 0),
            [CallPlaylists "PL123_abc"; CallPlaylistItems "PL123_abc" None])
    /\ forallb (fun c => negb (is_CallVideos c))
         [CallPlaylists "PL123_abc"; CallPlaylistItems "PL123_abc" None]
       = true.
Proof.
  apply (empty_playlist_response rejecting_parse string plain_URL_new
           plain_searchParams_get emptyClient 5%nat (Some "key")
           "https://x/playlist?list=PL123_abc" "PL123_abc"
           [CallPlaylistItems "PL123_abc" None]);
    try reflexivity.
  intros e H. discriminate H.
Defined.

Lemma metadata_failure_policy_witness :
  POST rejecting_parse string plain_URL_new plain_searchParams_get
    (failingDetailsClient notFoundError) 5 (Some "key") sampleRequest
  = Some (notFoundResponse, [CallPlaylists "PL123_abc"])
  /\ POST rejecting_parse string plain_URL_new plain_searchParams_get
       (failingDetailsClient backendError) 5 (Some "key") sampleRequest
     = Some (json (SummaryBody noDetails 3 "1:02:00" "20:40" 3720),
             [CallPlaylists "PL123_abc"; CallPlaylistItems "PL123_abc" None;
              CallPlaylistItems "PL123_abc" (Some "p2");
              CallVideos ["a"; "b"; "c"]]).
Proof.
  split.
  - apply (proj1 (metadata_failure_policy rejecting_parse string plain_URL_new
                    plain_searchParams_get (failingDetailsClient notFoundError)
                    5%nat (Some "key") "https://x/playlist?list=PL123_abc"
                    "PL123_abc" notFoundError
                    eq_refl eq_refl eq_refl eq_refl)).
    reflexivity.
  - apply (proj2 (metadata_failure_policy rejecting_parse string plain_URL_new
                    plain_searchParams_get (failingDetailsClient backendError)
                    5%nat (Some "key") "https://x/playlist?list=PL123_abc"
                    "PL123_abc" backendError
                    eq_refl eq_refl eq_refl eq_refl)).
    discriminate.
Defined.

Lemma error_taxonomy_witness :
  POST rejecting_parse string plain_URL_new plain_searchParams_get
    threeVideosClient 5 None sampleRequest
  = Some (mkResponse
            (ErrorBody "Server configuration error: API key missing.") 500,
          [])
  /\ POST rejecting_parse string plain_URL_new plain_searchParams_get
       threeVideosClient 5 (Some "key") (Normal JsUndefined)
     = Some (mkResponse (ErrorBody "Playlist URL is required.") 400, [])
  /\ POST rejecting_parse string plain_URL_new plain_searchParams_get
       (failingItemsClient authorizationRequiredError) 5 (Some "key")
       sampleRequest
     = Some (handleError authorizationRequiredError,
             [CallPlaylists "PL123_abc"; CallPlaylistItems "PL123_abc" None])
  /\ handleError authorizationRequiredError
     = mkResponse
         (ErrorBody "YouTube API Error (authorizationRequired): Login Required")
         401
  /\ handleError anonymousError
     = mkResponse (ErrorBody "YouTube API Error (null): undefined") 502.
Proof.
  pose proof (error_taxonomy rejecting_parse string plain_URL_new
                plain_searchParams_get) as T.
  assert (Hother : forall name,
             ~ In name named_reasons ->
             ~ is_named_reason (Some name)).
  { intros name Hname (name' & Heq & Hin). injection Heq as <-. auto. }
  split; [|split; [|split; [|split]]].
  - apply (proj1 (T threeVideosClient)). reflexivity.
  - apply (proj1 (proj2 (T threeVideosClient))); [reflexivity|].
    intros url H. discriminate H.
  - apply (proj1 (proj2 (proj2 (proj2
             (T (failingItemsClient authorizationRequiredError))))));
      reflexivity.
  - apply (proj2 (proj2 (proj2 (proj2
             (proj2 (proj2 (proj2 (proj2 (T threeVideosClient))))
                authorizationRequiredError))))).
    apply Hother. simpl. intros H.
    repeat destruct H as [H|H]; try discriminate H. exact H.
  - apply (proj2 (proj2 (proj2 (proj2
             (proj2 (proj2 (proj2 (proj2 (T threeVideosClient))))
                anonymousError))))).
    intros (name & Heq & _). discriminate Heq.
Defined.

(** C7 as first stated does not hold: a refusal of the membership listing
    with the upstream status 401 and the reason [authorizationRequired],
    which is none of the reasons of the taxonomy, is not answered as a
    generic server error; the answer carries the status 401, which is the
    status of no classification, and the upstream text. *)
Lemma other_reason_keeps_upstream_status :
  POST rejecting_parse string plain_URL_new plain_searchParams_get
    (failingItemsClient authorizationRequiredError) 5 (Some "key")
    sampleRequest
  = Some (mkResponse
            (ErrorBody
               "YouTube API Error (authorizationRequired): Login Required")
            401,
          [CallPlaylists "PL123_abc"; CallPlaylistItems "PL123_abc" None])
  /\ mkResponse
       (ErrorBody "YouTube API Error (authorizationRequired): Login Required")
       401
     <> genericServerErrorResponse
  /\ (forall c : Classification, status_of c <> 401)
  /\ ~ (forall (youtube : YoutubeClient) (response : Response)
               (calls : list Call) (error : string),
           POST rejecting_parse string plain_URL_new plain_searchParams_get
             youtube 5 (Some "key") sampleRequest = Some (response, calls) ->
           body response = ErrorBody error ->
           exists c, status response = status_of c).
Proof.
  split; [reflexivity|]. split; [discriminate|].
  assert (Hnone : forall c : Classification, status_of c <> 401)
    by (intros []; discriminate).
  split; [exact Hnone|].
  intros H.
  destruct (H (failingItemsClient authorizationRequiredError) _ _ _
              eq_refl eq_refl) as [c Hc].
  exact (Hnone c (eq_sym Hc)).
Qed.

(** * Further runs *)

Lemma parse_ignores_context_witness :
  parseISO8601Duration rejecting_parse "xPT5Szz" = Normal 5
  /\ parseISO8601Duration rejecting_parse "PT5S4M" = Normal 5.
Proof.
  split.
  - apply (parse_ignores_context rejecting_parse "x" "zz" None None
             (Some (Decimal.D5 Decimal.Nil)));
      first [reflexivity | discriminate | left; discriminate
            | repeat split; reflexivity].
  - apply (parse_ignores_context rejecting_parse "" "4M" None None
             (Some (Decimal.D5 Decimal.Nil)));
      first [reflexivity | discriminate | left; discriminate
            | repeat split; reflexivity].
Defined.

Lemma pagination_follows_tokens_witness :
  fetchVideoIds threeVideosClient 7 "PL123_abc" [] None
  = Some (Normal ["a"; "b"; "c"],
          [CallPlaylistItems "PL123_abc" None;
           CallPlaylistItems "PL123_abc" (Some "p2")]).
Proof.
  apply (proj2 (pagination_follows_tokens threeVideosClient "PL123_abc")
           [mkPlaylistItemListResponse
              (Some [mkPlaylistItem (Some "a"); mkPlaylistItem (Some "b")])
              (Some "p2");
            mkPlaylistItemListResponse
              (Some [mkPlaylistItem None; mkPlaylistItem (Some "c")]) None]
           7%nat [] None).
  - simpl. repeat split; reflexivity.
  - simpl. lia.
Defined.

Lemma lookup_failures_are_fatal_witness :
  (POST rejecting_parse string plain_URL_new plain_searchParams_get
     (failingItemsClient backendError) 5 (Some "key") sampleRequest
   = Some (handleError backendError,
           [CallPlaylists "PL123_abc"; CallPlaylistItems "PL123_abc" None])
   /\ forallb (fun c => negb (is_CallVideos c))
        [CallPlaylistItems "PL123_abc" None] = true)
  /\ exists batch e,
       In batch (videoIdBatches ["a"; "b"; "c"])
       /\ videos_list (failingVideosClient backendError) batch = Throw e
       /\ POST rejecting_parse string plain_URL_new plain_searchParams_get
            (failingVideosClient backendError) 5 (Some "key") sampleRequest
          = Some (handleError e,
                  CallPlaylists "PL123_abc"
                  :: ([CallPlaylistItems "PL123_abc" None;
                       CallPlaylistItems "PL123_abc" (Some "p2")]
                      ++ map CallVideos (videoIdBatches ["a"; "b"; "c"]))%list).
Proof.
  split.
  - apply (proj1 (lookup_failures_are_fatal rejecting_parse string
                    plain_URL_new plain_searchParams_get
                    (failingItemsClient backendError) 5%nat (Some "key")
                    "https://x/playlist?list=PL123_abc" "PL123_abc"
                    eq_refl eq_refl eq_refl
                    (fun e H => ltac:(discriminate H)))
             backendError [CallPlaylistItems "PL123_abc" None]).
    reflexivity.
  - apply (proj2 (lookup_failures_are_fatal rejecting_parse string
                    plain_URL_new plain_searchParams_get
                    (failingVideosClient backendError) 5%nat (Some "key")
                    "https://x/playlist?list=PL123_abc" "PL123_abc"
                    eq_refl eq_refl eq_refl
                    (fun e H => ltac:(discriminate H)))
             ["a"; "b"; "c"]
             [CallPlaylistItems "PL123_abc" None;
              CallPlaylistItems "PL123_abc" (Some "p2")]).
    + reflexivity.
    + exists ["a"; "b"; "c"], backendError. split; [now left|reflexivity].
Defined.

Lemma POST_call_order_witness :
  [CallPlaylists "PL123_abc"; CallPlaylistItems "PL123_abc" None;
   CallPlaylistItems "PL123_abc" (Some "p2"); CallVideos ["a"; "b"; "c"]]
  = []
  \/ exists url id pcalls vcalls,
       sampleRequest = Normal (JsString url)
       /\ has_valid_list string plain_URL_new plain_searchParams_get url id
       /\ [CallPlaylists "PL123_abc"; CallPlaylistItems "PL123_abc" None;
           CallPlaylistItems "PL123_abc" (Some "p2");
           CallVideos ["a"; "b"; "c"]]
          = CallPlaylists id :: (pcalls ++ vcalls)%list
       /\ Forall (is_items_call id) pcalls
       /\ Forall is_batch_call vcalls.
Proof.
  apply (POST_call_order rejecting_parse string plain_URL_new
           plain_searchParams_get threeVideosClient 5%nat (Some "key")
           sampleRequest
           (json (SummaryBody
                    (mkPlaylistDetails (Some "Mix") None (Some "Ch") None)
                    3 "1:02:00" "20:40" 3720))).
  reflexivity.
Defined.

Lemma POST_summary_invariants_witness :
  status (json (SummaryBody
                  (mkPlaylistDetails (Some "Mix") None (Some "Ch") None)
                  3 "1:02:00" "20:40" 3720)) = 200
  /\ (0 <= 3)%Z
  /\ (0 <= 3720)%Z
  /\ (3 = 0 -> 3720 = 0)%Z
  /\ "1:02:00" = formatDuration (inject_Z 3720)
  /\ "20:40" = formatDuration (averageOf 3720 3).
Proof.
  apply (POST_summary_invariants rejecting_parse string plain_URL_new
           plain_searchParams_get threeVideosClient 5%nat (Some "key")
           sampleRequest _
           [CallPlaylists "PL123_abc"; CallPlaylistItems "PL123_abc" None;
            CallPlaylistItems "PL123_abc" (Some "p2");
            CallVideos ["a"; "b"; "c"]]
           (mkPlaylistDetails (Some "Mix") None (Some "Ch") None)
           3 "1:02:00" "20:40" 3720);
    reflexivity.
Defined.

Lemma formatDuration_round_trip_witness :
  clock_seconds (formatDuration (inject_Z 45296)) = Some 45296.
Proof.
  apply (proj1 formatDuration_round_trip 45296); [lia|reflexivity].
Defined.

Lemma getTimeEstimate_buckets_witness :
  getTimeEstimate (Some (inject_Z 1000000)) = "About 2 weeks"
  /\ getTimeEstimate (Some (inject_Z 200000)) = "About 2 days".
Proof.
  split.
  - apply (proj1 (proj2 (proj2 (proj2 (proj2 (proj2
             (getTimeEstimate_buckets 1000000 eq_refl eq_refl))))))). lia.
  - apply (proj1 (proj2 (proj2 (proj2 (proj2
             (getTimeEstimate_buckets 200000 eq_refl eq_refl)))))). lia.
Defined.

Lemma calculateAdjustedTime_clock_witness :
  calculateAdjustedTime (Some (inject_Z 3720)) (3 # 2) = "41:20"
  /\ calculateAdjustedTime (Some (inject_Z 3720)) 1 = "1:02:00".
Proof.
  split.
  - apply (proj1 (proj1 calculateAdjustedTime_clock 3720 (3 # 2)
                    ltac:(split; [discriminate|reflexivity])
                    ltac:(simpl; tauto))).
  - apply (proj1 (proj2 calculateAdjustedTime_clock) 3720);
      [lia|reflexivity].
Defined.

Lemma POST_lookup_count_witness :
  Z.of_nat
    (List.length
       (filter is_CallVideos
          [CallPlaylists "PL123_abc"; CallPlaylistItems "PL123_abc" None;
           CallPlaylistItems "PL123_abc" (Some "p2");
           CallVideos ["a"; "b"; "c"]]))
  = ((3 + 49) / 50)%Z.
Proof.
  apply (POST_lookup_count rejecting_parse string plain_URL_new
           plain_searchParams_get threeVideosClient 5%nat (Some "key")
           sampleRequest
           (json (SummaryBody
                    (mkPlaylistDetails (Some "Mix") None (Some "Ch") None)
                    3 "1:02:00" "20:40" 3720))
           _ (mkPlaylistDetails (Some "Mix") None (Some "Ch") None)
           3 "1:02:00" "20:40" 3720);
    reflexivity.
Defined.
